(** * BasketRoute front-end: the local route optimizer

    A shallow embedding of [optimizeRoute] (the greedy cheapest-store-per-item
    optimizer of the grocery shopping component) and of the mock fallback of
    [optimizeShoppingRoute] in [src/services/api.ts], with the properties the
    specification states about them.

    Conventions of the embedding.
    - A JavaScript [number] that comes in as data (a price, a distance, the
      radius) is a finite rational [Q]; arithmetic on it is exact.  Values the
      code computes that may leave the finite range ([Math.max] over an empty
      argument list is [-Infinity]) live in [number], which adds the two
      infinities and [NaN] with the IEEE rules for them.
    - [quantity] and [maxStores] come from [parseInt] and are integers ([Z]).
    - A plain object used as a dictionary whose enumeration order matters
      ([storeItemMap], the mock [Plan]) is a [JsObject.t]: own properties in
      insertion order, enumerated as ECMAScript prescribes (array-index keys
      ascending first).  Dictionaries that are only read by key
      ([store.items], [itemStoreMaps]) are [gmap string _].
    - Property names are ordinary own keys: a store id is assumed not to
      name a member of [Object.prototype] (the ids of [sampleStores] are
      "1", "2" and "3").
    - [Array.prototype.sort] is a parameter of the optimizer body
      ([optimizeRouteWith]); [Array_sort] is a reference implementation that
      meets the ECMAScript contract (ordered by the comparator, stable). *)

From Stdlib Require Import QArith Lqa ZArith NArith Ascii String Sorting.Sorted.
From stdpp Require Import gmap strings list fin_maps pretty.

Open Scope Q_scope.

(** ** JavaScript numbers beyond the finite range *)

Inductive number : Type :=
  | Fin (q : Q)
  | PosInf
  | NegInf
  | NaN.

Definition num_add (a b : number) : number :=
  match a, b with
  | NaN, _ | _, NaN => NaN
  | Fin x, Fin y => Fin (x + y)
  | PosInf, NegInf | NegInf, PosInf => NaN
  | PosInf, _ | _, PosInf => PosInf
  | NegInf, _ | _, NegInf => NegInf
  end.

Definition num_neg (a : number) : number :=
  match a with
  | Fin x => Fin (- x)
  | PosInf => NegInf
  | NegInf => PosInf
  | NaN => NaN
  end.

Definition num_sub (a b : number) : number := num_add a (num_neg b).

(** The sign of a finite factor decides what an infinity times it is. *)
Definition inf_times (positive : bool) (x : Q) : number :=
  match x ?= 0 with
  | Eq => NaN
  | Gt => if positive then PosInf else NegInf
  | Lt => if positive then NegInf else PosInf
  end.

Definition num_mul (a b : number) : number :=
  match a, b with
  | NaN, _ | _, NaN => NaN
  | Fin x, Fin y => Fin (x * y)
  | PosInf, Fin y => inf_times true y
  | NegInf, Fin y => inf_times false y
  | Fin x, PosInf => inf_times true x
  | Fin x, NegInf => inf_times false x
  | PosInf, PosInf | NegInf, NegInf => PosInf
  | PosInf, NegInf | NegInf, PosInf => NegInf
  end.

Definition num_max (a b : number) : number :=
  match a, b with
  | NaN, _ | _, NaN => NaN
  | PosInf, _ | _, PosInf => PosInf
  | NegInf, c | c, NegInf => c
  | Fin x, Fin y => if Qle_bool x y then Fin y else Fin x
  end.

(** [Math.max(...xs)]: [-Infinity] when [xs] is empty. *)
Definition Math_max (xs : list Q) : number :=
  fold_left (fun acc x => num_max acc (Fin x)) xs NegInf.

(** [Math.ceil(n / 2)] for a length [n]. *)
Definition ceil_half (n : nat) : nat := Nat.div (n + 1) 2.

(** ** Plain objects with enumeration order *)

Module JsObject.

(** The canonical numeric strings "0", "1", ..., "4294967294" are array
    indices; every other string is an ordinary property name. *)
Definition digit (c : ascii) : option N :=
  let n := N_of_ascii c in
  if ((48 <=? n) && (n <=? 57))%N then Some (n - 48)%N else None.

Fixpoint digits (acc : N) (s : string) : option N :=
  match s with
  | EmptyString => Some acc
  | String c s' =>
      match digit c with
      | Some d => digits (acc * 10 + d)%N s'
      | None => None
      end
  end.

Definition array_index (s : string) : option N :=
  match s with
  | EmptyString => None
  | String c s' =>
      if (N_of_ascii c =? 48)%N
      then match s' with EmptyString => Some 0%N | _ => None end
      else match digits 0 s with
           | Some n => if (n <=? 4294967294)%N then Some n else None
           | None => None
           end
  end.

Section Object.
Context {V : Type}.

(** Own properties, in the order they were created. *)
Definition t : Type := list (string * V).

Definition empty : t := [].

Fixpoint get (o : t) (k : string) : option V :=
  match o with
  | [] => None
  | (k', v) :: o' => if String.eqb k' k then Some v else get o' k
  end.

(** [o[k] = v]: overwrite in place, or create the property last. *)
Fixpoint set (o : t) (k : string) (v : V) : t :=
  match o with
  | [] => [(k, v)]
  | (k', v') :: o' =>
      if String.eqb k' k then (k', v) :: o' else (k', v') :: set o' k v
  end.

(** Mutation of the value held at [k] (no effect when [k] is absent). *)
Fixpoint update (o : t) (k : string) (f : V -> V) : t :=
  match o with
  | [] => []
  | (k', v') :: o' =>
      if String.eqb k' k then (k', f v') :: o' else (k', v') :: update o' k f
  end.

Fixpoint insert_index (n : N) (v : V) (l : list (N * V)) : list (N * V) :=
  match l with
  | [] => [(n, v)]
  | (m, w) :: l' =>
      if (n <=? m)%N then (n, v) :: l else (m, w) :: insert_index n v l'
  end.

(** The array-index properties, ascending. *)
Fixpoint indexed (o : t) : list (N * V) :=
  match o with
  | [] => []
  | (k, v) :: o' =>
      match array_index k with
      | Some n => insert_index n v (indexed o')
      | None => indexed o'
      end
  end.

(** The other properties, in creation order. *)
Fixpoint named (o : t) : list V :=
  match o with
  | [] => []
  | (k, v) :: o' =>
      match array_index k with
      | Some _ => named o'
      | None => v :: named o'
      end
  end.

(** [Object.values(o)]. *)
Definition values (o : t) : list V := map snd (indexed o) ++ named o.

End Object.

Arguments t : clear implicits.

End JsObject.

(** ** [Array.prototype] *)

(** [xs.slice(0, n)] for an integer [n]: a negative [n] counts from the end. *)
Definition slice0 {A : Type} (xs : list A) (n : Z) : list A :=
  let len := Z.of_nat (length xs) in
  let final := if (n <? 0)%Z then Z.max (len + n) 0 else Z.min n len in
  take (Z.to_nat final) xs.

(** A comparator as passed to [sort]: negative when the first argument goes
    first. *)
Definition comparator (A : Type) : Type := A -> A -> Q.

(** [(a, b) => key(a) - key(b)] *)
Definition by_key {A : Type} (key : A -> Q) : comparator A :=
  fun a b => key a - key b.

Definition sort_function : Type := forall A : Type, comparator A -> list A -> list A.

Fixpoint sort_insert {A : Type} (cmp : comparator A) (x : A) (l : list A) : list A :=
  match l with
  | [] => [x]
  | y :: l' =>
      if Qle_bool (cmp x y) 0 then x :: l else y :: sort_insert cmp x l'
  end.

(** Reference [sort]: elements the comparator does not separate keep their
    order. *)
Definition Array_sort : sort_function :=
  fun A cmp l => foldr (sort_insert cmp) [] l.

(** ** Data model of the shopping component *)

Module GroceryItem.
Record t : Type := mk
  { id : string; name : string; quantity : Z; unit : string }.
End GroceryItem.

Module StoreItem.
Record t : Type := mk { price : Q; available : bool }.
End StoreItem.

Module Store.
Record t : Type := mk
  { id : string;
    name : string;
    address : string;
    distance : Q;
    items : gmap string StoreItem.t }.
End Store.

(** An entry of [itemStoreMaps[name]]: a store and the line cost there. *)
Module Offer.
Record t : Type := mk { store : Store.t; price : Q }.
End Offer.

(** A value of [storeItemMap]: what is bought at one store. *)
Module Bucket.
Record t : Type := mk { store : Store.t; items : list string; cost : Q }.
End Bucket.

Module ShoppingRoute.
Record t : Type := mk
  { stores : list Store.t;
    totalCost : Q;
    totalDistance : Q;
    savings : number }.
End ShoppingRoute.

Module Toast.
Record t : Type := mk
  { title : string; description : string; variant : option string }.
End Toast.

(** What one click on "Optimize Route" does: either a toast alone (the early
    [return]s, [route] is left as it was), or [setRoute] and a toast. *)
Inductive Outcome : Type :=
  | Rejected (toast : Toast.t)
  | Routed (route : ShoppingRoute.t) (toast : Toast.t).

Definition sampleStores : list Store.t :=
  [ Store.mk "1" "SuperMart" "123 Main St" 2.1
      (list_to_map
         [ ("milk", StoreItem.mk 3.99 true);
           ("bread", StoreItem.mk 2.49 true);
           ("eggs", StoreItem.mk 4.29 true);
           ("apples", StoreItem.mk 1.99 true) ]);
    Store.mk "2" "Fresh Foods" "456 Oak Ave" 3.2
      (list_to_map
         [ ("milk", StoreItem.mk 4.19 true);
           ("bread", StoreItem.mk 2.99 true);
           ("eggs", StoreItem.mk 3.89 true);
           ("apples", StoreItem.mk 1.79 true) ]);
    Store.mk "3" "Budget Grocers" "789 Pine Rd" 4.8
      (list_to_map
         [ ("milk", StoreItem.mk 3.49 true);
           ("bread", StoreItem.mk 1.99 true);
           ("eggs", StoreItem.mk 3.99 true);
           ("apples", StoreItem.mk 2.19 true) ]) ].

Definition toast_empty_list : Toast.t :=
  Toast.mk "Error" "Please add items to your grocery list first"
    (Some "destructive").

Definition toast_no_stores : Toast.t :=
  Toast.mk "No stores found" "No stores found within the specified radius"
    (Some "destructive").

Definition toast_optimized (visited : nat) : Toast.t :=
  Toast.mk "Route optimized!"
    ("Found route visiting " +:+ pretty visited +:+ " stores") None.

(** ** [optimizeRoute] *)

(** [sampleStores.filter(store => store.distance <= radius)] *)
Definition availableStores (stores : list Store.t) (radius : Q) : list Store.t :=
  List.filter (fun store => Qle_bool (Store.distance store) radius) stores.

(** [store.items[name]?.available] *)
Definition stocks (store : Store.t) (name : string) : bool :=
  match Store.items store !! name with
  | Some entry => StoreItem.available entry
  | None => false
  end.

(** [store.items[name].price], read only where [stocks] holds. *)
Definition price_at (store : Store.t) (name : string) : Q :=
  match Store.items store !! name with
  | Some entry => StoreItem.price entry
  | None => 0
  end.

(** The template literal [`${item.quantity} ${item.unit} ${item.name}`]. *)
Definition label (item : GroceryItem.t) : string :=
  pretty (GroceryItem.quantity item) +:+ " " +:+ GroceryItem.unit item
    +:+ " " +:+ GroceryItem.name item.

(** [(a, b) => a.price - b.price] *)
Definition by_price : comparator Offer.t := by_key Offer.price.

(** [(a, b) => a.store.distance - b.store.distance] *)
Definition by_distance : comparator Bucket.t :=
  by_key (fun s => Store.distance (Bucket.store s)).

(** [itemStoreMaps[item.name][0]], when that list is not empty: the [cheapest]
    option of the second loop. *)
Definition cheapest (maps : gmap string (list Offer.t)) (item : GroceryItem.t)
  : option Offer.t :=
  match maps !! GroceryItem.name item with
  | Some (first :: _) => Some first
  | _ => None
  end.

(** What the second loop does to [storeItemMap] for an entry bought at
    [offer]: create the bucket if there is none, push the label, add the
    cost. *)
Definition bought (storeItemMap : JsObject.t Bucket.t) (item : GroceryItem.t)
    (offer : Offer.t) : JsObject.t Bucket.t :=
  let key := Store.id (Offer.store offer) in
  JsObject.update
    (match JsObject.get storeItemMap key with
     | Some _ => storeItemMap
     | None => JsObject.set storeItemMap key (Bucket.mk (Offer.store offer) [] 0)
     end)
    key
    (fun b =>
       Bucket.mk (Bucket.store b) (Bucket.items b ++ [label item])
         (Bucket.cost b + Offer.price offer)).

Section Optimizer.

(** The engine's [Array.prototype.sort]. *)
Variable sort : sort_function.

(** The inner [availableStores.forEach]: one offer per store that stocks
    the item, in the order of [available]. *)
Definition offers (available : list Store.t) (item : GroceryItem.t) : list Offer.t :=
  flat_map
    (fun store =>
       if stocks store (GroceryItem.name item)
       then [ Offer.mk store
                (price_at store (GroceryItem.name item)
                 * inject_Z (GroceryItem.quantity item)) ]
       else [])
    available.

(** First [groceryList.forEach]: [itemStoreMaps[item.name]] is reset, filled
    and sorted for every entry of the list. *)
Definition itemStoreMaps (available : list Store.t) (groceryList : list GroceryItem.t)
  : gmap string (list Offer.t) :=
  fold_left
    (fun maps item =>
       <[ GroceryItem.name item := sort _ by_price (offers available item) ]> maps)
    groceryList ∅.

(** Body of the second [groceryList.forEach]. *)
Definition assign (maps : gmap string (list Offer.t))
    (acc : JsObject.t Bucket.t * Q) (item : GroceryItem.t)
  : JsObject.t Bucket.t * Q :=
  let '(storeItemMap, totalCost) := acc in
  match cheapest maps item with
  | Some offer => (bought storeItemMap item offer, totalCost + Offer.price offer)
  | None => acc
  end.

(** [storeItemMap] and [totalCost] after the second loop. *)
Definition greedy (available : list Store.t) (groceryList : list GroceryItem.t)
  : JsObject.t Bucket.t * Q :=
  fold_left (assign (itemStoreMaps available groceryList)) groceryList
    (JsObject.empty, 0).

(** [Object.values(storeItemMap).sort(...)], before [slice]. *)
Definition visitOrder (storeItemMap : JsObject.t Bucket.t) : list Bucket.t :=
  sort _ by_distance (JsObject.values storeItemMap).

Definition routeStores (storeItemMap : JsObject.t Bucket.t) (maxStores : Z)
  : list Bucket.t :=
  slice0 (visitOrder storeItemMap) maxStores.

Definition totalDistance (kept : list Bucket.t) : Q :=
  fold_left (fun sum s => sum + Store.distance (Bucket.store s)) kept 0.

(** [maxPrice] of the savings baseline for one item. *)
Definition maxPrice (available : list Store.t) (item : GroceryItem.t) : number :=
  Math_max
    (map (fun s => price_at s (GroceryItem.name item))
       (List.filter (fun s => stocks s (GroceryItem.name item)) available)).

Definition expensiveStoreCost (available : list Store.t)
    (groceryList : list GroceryItem.t) : number :=
  fold_left
    (fun sum item =>
       num_add sum
         (num_mul (maxPrice available item)
            (Fin (inject_Z (GroceryItem.quantity item)))))
    groceryList (Fin 0).

(** The function body, with the component state it closes over
    ([sampleStores], [groceryList], [radius], [maxStores]) as arguments. *)
Definition optimizeRouteWith (stores : list Store.t)
    (groceryList : list GroceryItem.t) (radius : Q) (maxStores : Z) : Outcome :=
  match groceryList with
  | [] => Rejected toast_empty_list
  | _ =>
      let available := availableStores stores radius in
      match available with
      | [] => Rejected toast_no_stores
      | _ =>
          let '(storeItemMap, totalCost) := greedy available groceryList in
          let kept := routeStores storeItemMap maxStores in
          Routed
            (ShoppingRoute.mk
               (map Bucket.store kept)
               totalCost
               (totalDistance kept)
               (num_sub (expensiveStoreCost available groceryList) (Fin totalCost)))
            (toast_optimized (length kept))
      end
  end.

End Optimizer.

(** The optimizer on an arbitrary candidate list, and the component's own
    [optimizeRoute] on its [sampleStores]. *)
Definition optimize : list Store.t -> list GroceryItem.t -> Q -> Z -> Outcome :=
  optimizeRouteWith Array_sort.

Definition optimizeRoute : list GroceryItem.t -> Q -> Z -> Outcome :=
  optimize sampleStores.

(** ** The mock fallback of [optimizeShoppingRoute] *)

Module OptimizedRoute.
Record t : Type := mk { Plan : JsObject.t (list string); Cost : Q }.
End OptimizedRoute.

(** [stores[i] || fallback] *)
Definition store_or (stores : list string) (i : nat) (fallback : string) : string :=
  match stores !! i with
  | Some EmptyString => fallback
  | Some s => s
  | None => fallback
  end.

(** The object returned in the [catch] branch; [random] is the value
    [Math.random()] drew. *)
Definition mockOptimization (random : Q) (items stores : list string)
  : OptimizedRoute.t :=
  let half := ceil_half (length items) in
  OptimizedRoute.mk
    (JsObject.set
       (JsObject.set JsObject.empty (store_or stores 0 "Walmart") (take half items))
       (store_or stores 1 "Target") (drop half items))
    (random * 50 + 25).

(** [backend] is the parsed body of the POST when it succeeded, [None] when
    the request, the status check or the parsing failed. *)
Definition optimizeShoppingRoute (backend : option OptimizedRoute.t) (random : Q)
    (items stores : list string) : OptimizedRoute.t :=
  match backend with
  | Some route => route
  | None => mockOptimization random items stores
  end.

(** ** Notions the specification uses *)

(** What ECMAScript promises of [sort] for a comparator that subtracts a key:
    the array is ordered by the key, and elements of equal key keep their
    relative order. *)
Definition key_class {A : Type} (key : A -> Q) (k : Q) (l : list A) : list A :=
  List.filter (fun a => Qeq_bool (key a) k) l.

Definition key_sorted {A : Type} (key : A -> Q) (l : list A) : Prop :=
  StronglySorted (fun a b => key a <= key b) l.

Definition stable_sorted {A : Type} (key : A -> Q) (l out : list A) : Prop :=
  key_sorted key out /\ forall k, key_class key k out = key_class key k l.

Definition sort_contract (sort : sort_function) : Prop :=
  forall (A : Type) (key : A -> Q) (l : list A),
    stable_sorted key l (sort A (by_key key) l).

(** The last entry of the grocery list with a given name. *)
Definition last_named (name : string) (groceryList : list GroceryItem.t)
  : option GroceryItem.t :=
  List.find (fun item => String.eqb (GroceryItem.name item) name) (rev groceryList).

(** Some available store stocks the item. *)
Definition fulfillable (available : list Store.t) (item : GroceryItem.t) : bool :=
  existsb (fun store => stocks store (GroceryItem.name item)) available.

(** Sum of the running costs of the given buckets: the line items bought at
    those stores. *)
Definition keptCost (kept : list Bucket.t) : Q :=
  fold_left (fun sum b => sum + Bucket.cost b) kept 0.




(** Inputs used in the examples. *)
Definition item (name : string) (quantity : Z) : GroceryItem.t :=
  GroceryItem.mk name name quantity "pcs".

Definition shop (id : string) (distance : Q) (catalog : list (string * Q)) : Store.t :=
  Store.mk id id EmptyString distance
    (list_to_map (map (fun '(n, p) => (n, StoreItem.mk p true)) catalog)).

(** Another [sort] an engine may ship: insertion from the left, an element
    going after those it does not precede. *)
Fixpoint sort_insert_last {A : Type} (cmp : comparator A) (x : A) (l : list A)
  : list A :=
  match l with
  | [] => [x]
  | y :: l' =>
      if Qle_bool (cmp y x) 0 then y :: sort_insert_last cmp x l' else x :: l
  end.

Definition Array_sort_left : sort_function :=
  fun A cmp l => fold_left (fun acc x => sort_insert_last cmp x acc) l [].

(** The stores of the specification's scenario A. *)
Definition scenarioStores : list Store.t :=
  [ shop "1" 1 [("milk", 3.99)]; shop "2" 2 [("milk", 3.49)] ].

(** ** Notions used by the further properties *)

(** Every property of [storeItemMap] is named after the id of the store it
    holds, and no id names two properties. *)
Definition keyed_by_id (storeItemMap : JsObject.t Bucket.t) : Prop :=
  NoDup (map fst storeItemMap)
  /\ Forall (fun p => fst p = Store.id (Bucket.store (snd p))) storeItemMap.

(** The options the second loop takes, in the order of the list: the first
    option of every entry whose option list is not empty. *)
Definition taken (maps : gmap string (list Offer.t)) (groceryList : list GroceryItem.t)
  : list Offer.t :=
  omap (cheapest maps) groceryList.

(** The ones among them at the store of the given id. *)
Definition taken_at (maps : gmap string (list Offer.t))
    (groceryList : list GroceryItem.t) (id : string) : list Offer.t :=
  List.filter (fun o => String.eqb (Store.id (Offer.store o)) id)
    (taken maps groceryList).

(** [sum += price] for each of the options in turn, from [init]: the additions
    in the order the loop makes them. *)
Definition added (options : list Offer.t) (init : Q) : Q :=
  fold_left (fun sum o => sum + Offer.price o) options init.

(** [Number.MAX_SAFE_INTEGER] *)
Definition MAX_SAFE_INTEGER : Z := 9007199254740991.

(** ** [String.prototype]

    For the text a shopper types, a string is taken as a sequence of code
    units below 256; the white space among them is TAB, LF, VT, FF, CR, SP
    and NBSP, and the letters with an upper case are A-Z and the Latin-1
    capitals. *)

Definition is_space (c : ascii) : bool :=
  let n := N_of_ascii c in
  ((9 <=? n) && (n <=? 13) || (n =? 32) || (n =? 160))%N.

Fixpoint trimStart (s : string) : string :=
  match s with
  | EmptyString => EmptyString
  | String c s' => if is_space c then trimStart s' else s
  end.

Fixpoint trimEnd (s : string) : string :=
  match s with
  | EmptyString => EmptyString
  | String c s' =>
      match trimEnd s' with
      | EmptyString => if is_space c then EmptyString else String c EmptyString
      | rest => String c rest
      end
  end.

(** [s.trim()] *)
Definition trim (s : string) : string := trimEnd (trimStart s).

Definition lower (c : ascii) : ascii :=
  let n := N_of_ascii c in
  if ((65 <=? n) && (n <=? 90)
      || (192 <=? n) && (n <=? 222) && negb (n =? 215))%N
  then ascii_of_N (n + 32)
  else c.

(** [s.toLowerCase()] *)
Fixpoint toLowerCase (s : string) : string :=
  match s with
  | EmptyString => EmptyString
  | String c s' => String (lower c) (toLowerCase s')
  end.

(** [xs.includes(x)] on strings *)
Definition includes (xs : list string) (x : string) : bool :=
  existsb (String.eqb x) xs.

(** [xs.filter((_, i) => i !== index)] *)
Fixpoint filter_index {A : Type} (xs : list A) (index : nat) : list A :=
  match xs, index with
  | [], _ => []
  | _ :: xs', O => xs'
  | x :: xs', S i => x :: filter_index xs' i
  end.

(** ** The store-selection component (the first [GroceryShoppingApp]) *)

Module BasketRouteApp.

Record State : Type := mk
  { items : list string;
    newItemName : string;
    optimizedRoute : option OptimizedRoute.t;
    isOptimizing : bool;
    selectedStores : list string }.

(** A handler gives the next state and the toasts it shows. *)
Definition Step : Type := State * list Toast.t.

Definition addItem (st : State) : Step :=
  if negb (String.eqb (trim (newItemName st)) EmptyString)
     && negb (includes (items st) (trim (newItemName st)))
  then
    let newItem := trim (newItemName st) in
    (mk (items st ++ [newItem]) EmptyString (optimizedRoute st)
       (isOptimizing st) (selectedStores st),
     [Toast.mk "Item Added" (newItem +:+ " added to your list") None])
  else (st, []).

Definition removeItem (st : State) (index : nat) : Step :=
  let removedItem :=
    match items st !! index with
    | Some name => name
    | None => "undefined"
    end in
  (mk (filter_index (items st) index) (newItemName st) (optimizedRoute st)
     (isOptimizing st) (selectedStores st),
   [Toast.mk "Item Removed" (removedItem +:+ " removed from your list") None]).

Definition handleStoreSelection (st : State) (storeName : string) (checked : bool)
  : State :=
  mk (items st) (newItemName st) (optimizedRoute st) (isOptimizing st)
    (if checked
     then selectedStores st ++ [storeName]
     else List.filter (fun name => negb (String.eqb name storeName))
            (selectedStores st)).

Definition toast_no_items : Toast.t :=
  Toast.mk "No Items" "Please add items to your grocery list first"
    (Some "destructive").

Definition toast_no_selection : Toast.t :=
  Toast.mk "No Stores Selected" "Please select at least one store"
    (Some "destructive").

Section Optimize.

(** [cost.toFixed(2)] *)
Variable toFixed2 : Q -> string.

(** [backend] and [random] are what [optimizeShoppingRoute] meets: the
    parsed answer of the service, if any, and the draw of [Math.random]. *)
Definition optimizeRoute (backend : option OptimizedRoute.t) (random : Q)
    (st : State) : Step :=
  match items st with
  | [] => (st, [toast_no_items])
  | _ =>
      match selectedStores st with
      | [] => (st, [toast_no_selection])
      | _ =>
          let result :=
            optimizeShoppingRoute backend random (items st) (selectedStores st) in
          (mk (items st) (newItemName st) (Some result) false (selectedStores st),
           [Toast.mk "Route Optimized"
              ("Found optimal route with total cost $"
               +:+ toFixed2 (OptimizedRoute.Cost result)) None])
      end
  end.

End Optimize.

End BasketRouteApp.

(** A list as [BasketRouteApp.addItem] builds it: no name twice, every name
    non-empty and without white space at either end. *)
Definition clean_names (names : list string) : Prop :=
  NoDup names /\ Forall (fun s => s <> EmptyString /\ trim s = s) names.

(** ** The shopping component around [optimizeRoute] (the second
    [GroceryShoppingApp]) *)

Module SmartGroceryApp.

Module NewItem.
Record t : Type := mk { name : string; quantity : Z; unit : string }.
End NewItem.

Record State : Type := mk
  { groceryList : list GroceryItem.t;
    newItem : NewItem.t;
    radius : Q;
    maxStores : Z;
    route : option ShoppingRoute.t }.

Definition Step : Type := State * list Toast.t.

Definition toast_no_name : Toast.t :=
  Toast.mk "Error" "Please enter an item name" (Some "destructive").

(** [now] is the value of [Date.now()]. *)
Definition addItem (now : Z) (st : State) : Step :=
  if String.eqb (trim (NewItem.name (newItem st))) EmptyString
  then (st, [toast_no_name])
  else
    let item :=
      GroceryItem.mk (pretty now)
        (toLowerCase (NewItem.name (newItem st)))
        (NewItem.quantity (newItem st))
        (NewItem.unit (newItem st)) in
    (mk (groceryList st ++ [item]) (NewItem.mk EmptyString 1 "pcs")
       (radius st) (maxStores st) (route st),
     []).

Definition removeItem (st : State) (id : string) : State :=
  mk (List.filter (fun item => negb (String.eqb (GroceryItem.id item) id))
        (groceryList st))
    (newItem st) (radius st) (maxStores st) (route st).

(** [optimizeRoute] as a handler on the state: [setRoute] on success. *)
Definition optimizeRouteHandler (st : State) : Step :=
  match optimizeRoute (groceryList st) (radius st) (maxStores st) with
  | Rejected toast => (st, [toast])
  | Routed r toast =>
      (mk (groceryList st) (newItem st) (radius st) (maxStores st) (Some r),
       [toast])
  end.

End SmartGroceryApp.

(** ** The component with geolocation and a remote optimizer *)

Module GeoStore.
Record t : Type := mk
  { id : string;
    name : string;
    address : string;
    distance : Q;
    latitude : Q;
    longitude : Q;
    items : gmap string StoreItem.t }.
End GeoStore.

Module RoutePath.
Record t : Type := mk { coordinates : list (Q * Q); duration : Q }.
End RoutePath.

Module OptimizeRouteResponse.
Record t : Type := mk
  { stores : list GeoStore.t;
    totalCost : Q;
    totalDistance : Q;
    savings : Q;
    route : RoutePath.t }.
End OptimizeRouteResponse.

Module GeoApp.

Record State : Type := mk
  { groceryList : list GroceryItem.t;
    radius : Q;
    maxStores : Z;
    route : option OptimizeRouteResponse.t;
    isOptimizing : bool;
    stores : list GeoStore.t;
    latitude : option Q;
    longitude : option Q }.

Definition Step : Type := State * list Toast.t.

(** [!coordinate]: [null] and 0 are both falsy. *)
Definition falsy (coordinate : option Q) : bool :=
  match coordinate with
  | None => true
  | Some q => Qeq_bool q 0
  end.

Definition toast_location_required : Toast.t :=
  Toast.mk "Location Required"
    "Please enable location access to optimize your route" (Some "destructive").

Definition toast_api_error : Toast.t :=
  Toast.mk "API Error" "Using local optimization as fallback" (Some "destructive").

(** The [result] built in the [catch] branch. *)
Definition localFallback (available : list GeoStore.t)
    (groceryList : list GroceryItem.t) (maxStores : Z) : OptimizeRouteResponse.t :=
  OptimizeRouteResponse.mk
    (slice0 available maxStores)
    (inject_Z (Z.of_nat (length groceryList)) * 15)
    (fold_left (fun sum s => sum + GeoStore.distance s)
       (slice0 available maxStores) 0)
    (inject_Z (Z.of_nat (length groceryList)) * 5)
    (RoutePath.mk [] 0).

(** [api] is what [apiService.optimizeRoute] resolves to, [None] when it
    throws. *)
Definition optimizeRoute (api : option OptimizeRouteResponse.t) (st : State) : Step :=
  match groceryList st with
  | [] => (st, [toast_empty_list])
  | _ =>
      if falsy (latitude st) || falsy (longitude st)
      then (st, [toast_location_required])
      else
        match api with
        | Some optimizedRoute =>
            (mk (groceryList st) (radius st) (maxStores st) (Some optimizedRoute)
               false (stores st) (latitude st) (longitude st),
             [toast_optimized (length (OptimizeRouteResponse.stores optimizedRoute))])
        | None =>
            let availableStores :=
              List.filter (fun store => Qle_bool (GeoStore.distance store) (radius st))
                (stores st) in
            match availableStores with
            | [] =>
                (mk (groceryList st) (radius st) (maxStores st) (route st)
                   false (stores st) (latitude st) (longitude st),
                 [toast_api_error; toast_no_stores])
            | _ =>
                (mk (groceryList st) (radius st) (maxStores st)
                   (Some (localFallback availableStores (groceryList st)
                            (maxStores st)))
                   false (stores st) (latitude st) (longitude st),
                 [toast_api_error])
            end
        end
  end.

End GeoApp.

(** ** The comma-separated item box *)

(** [s.split(',')] *)
Fixpoint split_comma (s : string) : list string :=
  match s with
  | EmptyString => [EmptyString]
  | String c s' =>
      if Ascii.eqb c ","%char
      then EmptyString :: split_comma s'
      else
        match split_comma s' with
        | first :: rest => String c first :: rest
        | [] => [String c EmptyString]
        end
  end.

(** [itemsInput.split(',').map(s => s.trim()).filter(Boolean)] *)
Definition parseItems (itemsInput : string) : list string :=
  List.filter (fun s => negb (String.eqb s EmptyString))
    (map trim (split_comma itemsInput)).

(** A field as typed between two commas. *)
Fixpoint comma_free (s : string) : bool :=
  match s with
  | EmptyString => true
  | String c s' => negb (Ascii.eqb c ","%char) && comma_free s'
  end.

(** * Properties

    ** The sort contract *)

Section SortFacts.
Context {A : Type} (key : A -> Q).

Lemma by_key_le_iff x y : Qle_bool (by_key key x y) 0 = true <-> key x <= key y.
Proof. unfold by_key. rewrite Qle_bool_iff. split; intros; lra. Qed.

Lemma sort_insert_In x l z : In z (sort_insert (by_key key) x l) <-> z = x \/ In z l.
Proof.
  induction l as [|y l IH]; simpl.
  - intuition.
  - destruct (Qle_bool (by_key key x y) 0); simpl; [intuition|].
    rewrite IH. intuition.
Qed.

Lemma sort_insert_sorted x l :
  key_sorted key l -> key_sorted key (sort_insert (by_key key) x l).
Proof.
  unfold key_sorted. induction 1 as [|y l Hl IH Hy]; simpl.
  - constructor; [constructor | constructor].
  - destruct (Qle_bool (by_key key x y) 0) eqn:E.
    + apply by_key_le_iff in E.
      constructor; [constructor; assumption|].
      constructor; [assumption|].
      eapply Forall_impl; [exact Hy|]. simpl. intros; lra.
    + assert (key y <= key x) as Hyx.
      { destruct (Qlt_le_dec (key x) (key y)) as [Hlt|Hle]; [|exact Hle].
        assert (Qle_bool (by_key key x y) 0 = true) as C by (apply by_key_le_iff; lra).
        congruence. }
      constructor; [exact IH|].
      apply List.Forall_forall. intros z Hz. apply sort_insert_In in Hz.
      destruct Hz as [->|Hz]; [exact Hyx|].
      rewrite List.Forall_forall in Hy. apply Hy, Hz.
Qed.

Lemma sort_insert_class x l k :
  key_class key k (sort_insert (by_key key) x l) = key_class key k (x :: l).
Proof.
  induction l as [|y l IH]; [reflexivity|].
  simpl. destruct (Qle_bool (by_key key x y) 0) eqn:E; [reflexivity|].
  assert (~ key x <= key y) as Hxy.
  { intros H. apply by_key_le_iff in H. congruence. }
  unfold key_class in *. simpl in *. rewrite IH.
  destruct (Qeq_bool (key y) k) eqn:Ey; [|reflexivity].
  destruct (Qeq_bool (key x) k) eqn:Ex; [|reflexivity].
  apply Qeq_bool_iff in Ey, Ex. exfalso. apply Hxy. lra.
Qed.

Lemma Array_sort_stable l : stable_sorted key l (Array_sort A (by_key key) l).
Proof.
  induction l as [|x l [IHs IHc]]; simpl.
  - split; [constructor | reflexivity].
  - split.
    + apply sort_insert_sorted, IHs.
    + intros k. unfold Array_sort in *. simpl. rewrite sort_insert_class.
      unfold key_class in *. simpl. rewrite IHc. reflexivity.
Qed.

Lemma key_class_In k l z :
  In z (key_class key k l) <-> In z l /\ key z == k.
Proof.
  unfold key_class. rewrite filter_In, Qeq_bool_iff. reflexivity.
Qed.

Lemma stable_sorted_In l out z : stable_sorted key l out -> In z out <-> In z l.
Proof.
  intros [_ Hc]. specialize (Hc (key z)).
  split; intros Hz.
  - assert (In z (key_class key (key z) out)) as H
      by (apply key_class_In; split; [assumption | reflexivity]).
    rewrite Hc in H. apply key_class_In in H. tauto.
  - assert (In z (key_class key (key z) l)) as H
      by (apply key_class_In; split; [assumption | reflexivity]).
    rewrite <- Hc in H. apply key_class_In in H. tauto.
Qed.

(** A list has at most one stable sorted arrangement. *)
Lemma stable_sorted_unique l out1 out2 :
  stable_sorted key l out1 -> stable_sorted key l out2 -> out1 = out2.
Proof.
  intros [S1 C1] [S2 C2].
  assert (forall k, key_class key k out1 = key_class key k out2) as C
    by (intros k; rewrite C1, C2; reflexivity).
  clear C1 C2 l. revert out2 S2 C.
  induction S1 as [|a out1 S1 IH Ha]; intros out2 S2 C.
  - destruct out2 as [|b out2]; [reflexivity|].
    specialize (C (key b)). unfold key_class in C. simpl in C.
    rewrite (proj2 (Qeq_bool_iff _ _) (Qeq_refl (key b))) in C. discriminate.
  - destruct S2 as [|b out2 S2 Hb].
    + specialize (C (key a)). unfold key_class in C. simpl in C.
      rewrite (proj2 (Qeq_bool_iff _ _) (Qeq_refl (key a))) in C. discriminate.
    + assert (key a == key b) as Hab.
      { assert (In a (b :: out2)) as Ia.
        { pose proof (C (key a)) as Ck.
          assert (In a (key_class key (key a) (a :: out1))) as H
            by (apply key_class_In; split; [left; reflexivity | reflexivity]).
          rewrite Ck in H. apply key_class_In in H. tauto. }
        assert (In b (a :: out1)) as Ib.
        { pose proof (C (key b)) as Ck.
          assert (In b (key_class key (key b) (b :: out2))) as H
            by (apply key_class_In; split; [left; reflexivity | reflexivity]).
          rewrite <- Ck in H. apply key_class_In in H. tauto. }
        rewrite List.Forall_forall in Ha, Hb.
        destruct Ia as [Ia|Ia]; [subst; reflexivity|].
        destruct Ib as [Ib|Ib]; [subst; reflexivity|].
        specialize (Ha _ Ib). specialize (Hb _ Ia). lra. }
      pose proof (C (key a)) as Ck. unfold key_class in Ck. simpl in Ck.
      rewrite (proj2 (Qeq_bool_iff _ _) (Qeq_refl (key a))) in Ck.
      rewrite (proj2 (Qeq_bool_iff (key b) (key a)) (Qeq_sym _ _ Hab)) in Ck.
      injection Ck as -> Ck. f_equal.
      apply IH; [assumption|].
      intros k. specialize (C k). unfold key_class in *. simpl in C.
      destruct (Qeq_bool (key b) k); [injection C; tauto | exact C].
Qed.

End SortFacts.

Lemma Array_sort_contract : sort_contract Array_sort.
Proof. intros A key l. apply Array_sort_stable. Qed.

Lemma sort_contract_unique (sort : sort_function) :
  sort_contract sort ->
  forall (A : Type) (key : A -> Q) (l : list A),
    sort A (by_key key) l = Array_sort A (by_key key) l.
Proof.
  intros H A key l.
  eapply stable_sorted_unique; [apply H | apply Array_sort_stable].
Qed.

Section SortLeftFacts.
Context {A : Type} (key : A -> Q).

Lemma sort_insert_last_In x l z :
  In z (sort_insert_last (by_key key) x l) <-> z = x \/ In z l.
Proof.
  induction l as [|y l IH]; simpl.
  - intuition.
  - destruct (Qle_bool (by_key key y x) 0); simpl; [|intuition].
    rewrite IH. intuition.
Qed.

Lemma sort_insert_last_sorted x l :
  key_sorted key l -> key_sorted key (sort_insert_last (by_key key) x l).
Proof.
  unfold key_sorted. induction 1 as [|y l Hl IH Hy]; simpl.
  - constructor; [constructor | constructor].
  - destruct (Qle_bool (by_key key y x) 0) eqn:E.
    + apply (by_key_le_iff key) in E.
      constructor; [exact IH|].
      apply List.Forall_forall. intros z Hz. apply sort_insert_last_In in Hz.
      destruct Hz as [->|Hz]; [exact E|].
      rewrite List.Forall_forall in Hy. apply Hy, Hz.
    + assert (key x <= key y) as Hxy.
      { destruct (Qlt_le_dec (key y) (key x)) as [Hlt|Hle]; [|exact Hle].
        assert (Qle_bool (by_key key y x) 0 = true) as C
          by (apply (by_key_le_iff key); lra).
        congruence. }
      constructor; [constructor; assumption|].
      constructor; [assumption|].
      eapply Forall_impl; [exact Hy|]. simpl. intros; lra.
Qed.

Lemma key_class_above k l :
  Forall (fun z => k < key z) l -> key_class key k l = [].
Proof.
  unfold key_class. induction 1 as [|z l Hz _ IH]; [reflexivity|].
  simpl. destruct (Qeq_bool (key z) k) eqn:E; [|exact IH].
  apply Qeq_bool_iff in E. lra.
Qed.

Lemma sort_insert_last_class x l k :
  key_sorted key l ->
  key_class key k (sort_insert_last (by_key key) x l) = key_class key k (l ++ [x]).
Proof.
  unfold key_sorted. induction 1 as [|y l Hl IH Hy]; [reflexivity|].
  simpl. destruct (Qle_bool (by_key key y x) 0) eqn:E.
  - unfold key_class in *. simpl. rewrite IH. reflexivity.
  - assert (key x < key y) as Hxy.
    { destruct (Qlt_le_dec (key x) (key y)) as [Hlt|Hle]; [exact Hlt|].
      assert (Qle_bool (by_key key y x) 0 = true) as C
        by (apply (by_key_le_iff key); lra).
      congruence. }
    change (key_class key k (x :: y :: l) = key_class key k ((y :: l) ++ [x])).
    unfold key_class. rewrite List.filter_app. simpl.
    destruct (Qeq_bool (key x) k) eqn:Ex; [|rewrite app_nil_r; reflexivity].
    apply Qeq_bool_iff in Ex.
    assert (key_class key k (y :: l) = []) as Hnil.
    { apply key_class_above. constructor; [lra|].
      eapply Forall_impl; [exact Hy|]. simpl. intros; lra. }
    unfold key_class in Hnil. simpl in Hnil. rewrite Hnil. reflexivity.
Qed.

Lemma Array_sort_left_stable l : stable_sorted key l (Array_sort_left A (by_key key) l).
Proof.
  unfold Array_sort_left.
  assert (forall done acc,
             stable_sorted key done acc ->
             stable_sorted key (done ++ l)
               (fold_left (fun acc x => sort_insert_last (by_key key) x acc) l acc)) as H.
  { induction l as [|x l IH]; intros done acc Hacc; simpl.
    - rewrite app_nil_r. exact Hacc.
    - change (done ++ x :: l) with (done ++ [x] ++ l). rewrite app_assoc.
      apply IH. destruct Hacc as [Hs Hc]. split.
      + apply sort_insert_last_sorted, Hs.
      + intros k. rewrite sort_insert_last_class by exact Hs.
        unfold key_class in *. rewrite !List.filter_app, Hc. reflexivity. }
  apply (H [] []). split; [constructor | reflexivity].
Qed.

End SortLeftFacts.

Lemma Array_sort_left_contract : sort_contract Array_sort_left.
Proof. intros A key l. apply Array_sort_left_stable. Qed.

(** ** Any conforming [sort] gives the reference result *)

Section AnySort.
Variable sort : sort_function.
Hypothesis conforming : sort_contract sort.

Lemma sort_by_price l : sort _ by_price l = Array_sort _ by_price l.
Proof. exact (sort_contract_unique sort conforming Offer.t Offer.price l). Qed.

Lemma sort_by_distance l : sort _ by_distance l = Array_sort _ by_distance l.
Proof.
  exact (sort_contract_unique sort conforming Bucket.t
           (fun b => Store.distance (Bucket.store b)) l).
Qed.

Lemma itemStoreMaps_conforming available groceryList :
  itemStoreMaps sort available groceryList
  = itemStoreMaps Array_sort available groceryList.
Proof.
  unfold itemStoreMaps. generalize (∅ : gmap string (list Offer.t)).
  induction groceryList as [|x gl IH]; intros m; simpl; [reflexivity|].
  rewrite sort_by_price. apply IH.
Qed.

Lemma optimizeRouteWith_conforming stores groceryList radius maxStores :
  optimizeRouteWith sort stores groceryList radius maxStores
  = optimize stores groceryList radius maxStores.
Proof.
  unfold optimize, optimizeRouteWith, greedy, routeStores, visitOrder.
  rewrite itemStoreMaps_conforming.
  destruct groceryList; [reflexivity|].
  destruct (availableStores stores radius); [reflexivity|].
  destruct (fold_left _ _ _) as [m c].
  rewrite sort_by_distance. reflexivity.
Qed.

End AnySort.

(** ** The option lists *)

Lemma last_named_snoc name groceryList x :
  last_named name (groceryList ++ [x])
  = if String.eqb (GroceryItem.name x) name then Some x
    else last_named name groceryList.
Proof. unfold last_named. rewrite rev_unit. reflexivity. Qed.

Lemma last_named_In name groceryList x :
  last_named name groceryList = Some x ->
  In x groceryList /\ GroceryItem.name x = name.
Proof.
  unfold last_named. intros H. apply find_some in H as [Hin Hn].
  apply in_rev in Hin. apply String.eqb_eq in Hn. auto.
Qed.

Lemma last_named_is_Some groceryList x :
  In x groceryList -> exists y, last_named (GroceryItem.name x) groceryList = Some y.
Proof.
  unfold last_named. intros Hin.
  destruct (find _ _) as [y|] eqn:E; [eauto|].
  apply in_rev in Hin. apply (find_none _ _ E x) in Hin.
  rewrite String.eqb_refl in Hin. discriminate.
Qed.

Lemma itemStoreMaps_snoc sort available groceryList x :
  itemStoreMaps sort available (groceryList ++ [x])
  = <[ GroceryItem.name x := sort _ by_price (offers available x) ]>
      (itemStoreMaps sort available groceryList).
Proof. unfold itemStoreMaps. rewrite fold_left_app. reflexivity. Qed.

(** The list kept under a name is the one built from the last entry of that
    name. *)
Lemma itemStoreMaps_lookup sort available groceryList name :
  itemStoreMaps sort available groceryList !! name
  = (fun x => sort _ by_price (offers available x)) <$> last_named name groceryList.
Proof.
  induction groceryList as [|x gl IH] using rev_ind; [reflexivity|].
  rewrite itemStoreMaps_snoc, last_named_snoc.
  destruct (String.eqb (GroceryItem.name x) name) eqn:E.
  - apply String.eqb_eq in E. subst. rewrite lookup_insert_eq. reflexivity.
  - apply String.eqb_neq in E. rewrite lookup_insert_ne by exact E. exact IH.
Qed.

(** ** Plain objects *)

Section ObjectFacts.
Context {V : Type}.
Implicit Types (o : JsObject.t V) (k : string) (v : V).

Lemma insert_index_In n v (l : list (N * V)) p :
  In p (JsObject.insert_index n v l) <-> p = (n, v) \/ In p l.
Proof.
  induction l as [|[m w] l IH]; simpl.
  - intuition.
  - destruct (n <=? m)%N; simpl; [intuition|]. rewrite IH. intuition.
Qed.

Lemma insert_index_length n v (l : list (N * V)) :
  length (JsObject.insert_index n v l) = S (length l).
Proof.
  induction l as [|[m w] l IH]; simpl; [reflexivity|].
  destruct (n <=? m)%N; simpl; [reflexivity|]. rewrite IH. reflexivity.
Qed.

Lemma indexed_In o n v :
  In (n, v) (JsObject.indexed o) ->
  exists k, In (k, v) o /\ JsObject.array_index k = Some n.
Proof.
  induction o as [|[k w] o IH]; simpl; [tauto|].
  destruct (JsObject.array_index k) as [m|] eqn:E.
  - rewrite insert_index_In. intros [H|H].
    + injection H as -> ->. eauto.
    + destruct (IH H) as (k' & ? & ?). eauto.
  - intros H. destruct (IH H) as (k' & ? & ?). eauto.
Qed.

Lemma named_In o v :
  In v (JsObject.named o) ->
  exists k, In (k, v) o /\ JsObject.array_index k = None.
Proof.
  induction o as [|[k w] o IH]; simpl; [tauto|].
  destruct (JsObject.array_index k) as [m|] eqn:E.
  - intros H. destruct (IH H) as (k' & ? & ?). eauto.
  - intros [->|H]; [eauto|]. destruct (IH H) as (k' & ? & ?). eauto.
Qed.

Lemma values_In o v : In v (JsObject.values o) -> exists k, In (k, v) o.
Proof.
  unfold JsObject.values. rewrite in_app_iff, in_map_iff.
  intros [([n w] & <- & H)|H].
  - apply indexed_In in H as (k & ? & _). eauto.
  - apply named_In in H as (k & ? & _). eauto.
Qed.

Lemma values_length o : length (JsObject.values o) = length o.
Proof.
  unfold JsObject.values. rewrite length_app, length_map.
  induction o as [|[k w] o IH]; simpl; [reflexivity|].
  destruct (JsObject.array_index k); simpl.
  - rewrite insert_index_length. simpl. rewrite IH. reflexivity.
  - rewrite <- IH. lia.
Qed.

Lemma set_In o k v p : In p (JsObject.set o k v) -> In p o \/ p = (k, v).
Proof.
  induction o as [|[k' w] o IH]; simpl.
  - intuition.
  - destruct (String.eqb k' k) eqn:E; simpl.
    + apply String.eqb_eq in E. subst. intuition.
    + intuition.
Qed.

Lemma update_In o k (f : V -> V) p :
  In p (JsObject.update o k f) ->
  In p o \/ exists w, In (k, w) o /\ p = (k, f w).
Proof.
  induction o as [|[k' w] o IH]; simpl; [tauto|].
  destruct (String.eqb k' k) eqn:E; simpl.
  - apply String.eqb_eq in E. subst. intros [<-|H]; eauto.
  - intros [<-|H]; [auto|]. destruct (IH H) as [?|(w' & ? & ?)]; eauto.
Qed.

Lemma set_length_fresh o k v :
  JsObject.get o k = None -> length (JsObject.set o k v) = S (length o).
Proof.
  induction o as [|[k' w] o IH]; simpl; [reflexivity|].
  destruct (String.eqb k' k); [discriminate|]. simpl. intros H.
  rewrite IH by exact H. reflexivity.
Qed.

Lemma update_length o k (f : V -> V) :
  length (JsObject.update o k f) = length o.
Proof.
  induction o as [|[k' w] o IH]; simpl; [reflexivity|].
  destruct (String.eqb k' k); simpl; [reflexivity|]. rewrite IH. reflexivity.
Qed.

End ObjectFacts.

(** ** [slice] and [sort] keep elements of the array *)

Lemma slice0_In {A : Type} (xs : list A) n x : In x (slice0 xs n) -> In x xs.
Proof.
  unfold slice0. intros H. apply list_elem_of_In in H.
  apply list_elem_of_In. eapply subseteq_take, H.
Qed.

Lemma slice0_length_positive {A : Type} (xs : list A) n :
  (0 < n)%Z -> (Z.of_nat (length (slice0 xs n)) <= n)%Z.
Proof.
  unfold slice0. intros H. rewrite length_take.
  destruct (n <? 0)%Z eqn:E; lia.
Qed.

Lemma slice0_zero {A : Type} (xs : list A) : slice0 xs 0 = [].
Proof. unfold slice0. simpl. rewrite Z.min_l by lia. reflexivity. Qed.

Lemma slice0_negative {A : Type} (xs : list A) n :
  (n < 0)%Z -> slice0 xs n = take (length xs - Z.to_nat (- n)) xs.
Proof.
  unfold slice0. intros H. f_equal.
  destruct (Z.ltb_spec n 0); lia.
Qed.

Lemma Array_sort_In {A : Type} (key : A -> Q) l x :
  In x (Array_sort A (by_key key) l) <-> In x l.
Proof. apply (stable_sorted_In key), Array_sort_stable. Qed.

Lemma Array_sort_length {A : Type} (cmp : comparator A) l :
  length (Array_sort A cmp l) = length l.
Proof.
  induction l as [|x l IH]; [reflexivity|].
  unfold Array_sort in *. simpl. rewrite <- IH.
  generalize (foldr (sort_insert cmp) [] l). intros s.
  induction s as [|y s IHs]; simpl; [reflexivity|].
  destruct (Qle_bool (cmp x y) 0); simpl; [reflexivity|].
  rewrite IHs. reflexivity.
Qed.

Lemma slice0_take {A : Type} (xs : list A) n :
  exists k,
    slice0 xs n = take k xs
    /\ ((Z.of_nat (length xs) <= n)%Z -> (length xs <= k)%nat).
Proof.
  unfold slice0. eexists. split; [reflexivity|].
  intros H. destruct (Z.ltb_spec n 0); lia.
Qed.

(** ** Offers and the greedy assignment *)

Lemma offers_In available x o :
  In o (offers available x) <->
  In (Offer.store o) available
  /\ stocks (Offer.store o) (GroceryItem.name x) = true
  /\ o = Offer.mk (Offer.store o)
           (price_at (Offer.store o) (GroceryItem.name x)
            * inject_Z (GroceryItem.quantity x)).
Proof.
  unfold offers. rewrite in_flat_map. split.
  - intros (s & Hs & Ho).
    destruct (stocks s (GroceryItem.name x)) eqn:E; [|destruct Ho].
    destruct Ho as [<-|[]]. simpl. auto.
  - intros (Hs & Hst & Ho). exists (Offer.store o). split; [exact Hs|].
    rewrite Hst. left. symmetry. exact Ho.
Qed.

Lemma offers_nil available x :
  fulfillable available x = false -> offers available x = [].
Proof.
  unfold fulfillable, offers. induction available as [|s av IH]; [reflexivity|].
  simpl. destruct (stocks s (GroceryItem.name x)); [discriminate|].
  simpl. exact IH.
Qed.

(** The cheapest option of an entry is an offer built from the last entry of
    the same name. *)
Lemma cheapest_from_last available groceryList x o :
  cheapest (itemStoreMaps Array_sort available groceryList) x = Some o ->
  exists last,
    last_named (GroceryItem.name x) groceryList = Some last
    /\ In o (offers available last).
Proof.
  unfold cheapest. rewrite itemStoreMaps_lookup.
  destruct (last_named _ _) as [last|]; simpl; [|discriminate].
  destruct (Array_sort _ _ _) as [|first rest] eqn:E; [discriminate|].
  intros [= ->]. exists last. split; [reflexivity|].
  apply (Array_sort_In Offer.price). unfold by_price in E. rewrite E.
  left. reflexivity.
Qed.

Lemma bought_In storeItemMap x o k b :
  In (k, b) (bought storeItemMap x o) ->
  (exists b', In (k, b') storeItemMap /\ Bucket.store b = Bucket.store b')
  \/ Bucket.store b = Offer.store o.
Proof.
  unfold bought. intros H.
  apply update_In in H as [H|(w & H & E)].
  - destruct (JsObject.get _ _).
    + left. eauto.
    + apply set_In in H as [H|E]; [left; eauto|].
      injection E as -> ->. right. reflexivity.
  - injection E as -> ->. simpl.
    destruct (JsObject.get _ _).
    + left. eauto.
    + apply set_In in H as [H|E]; [left; eauto|].
      injection E as ->. right. reflexivity.
Qed.

Lemma assign_stores (P : Store.t -> Prop) maps l :
  (forall x o, cheapest maps x = Some o -> P (Offer.store o)) ->
  forall acc,
    (forall k b, In (k, b) (fst acc) -> P (Bucket.store b)) ->
    forall k b, In (k, b) (fst (fold_left (assign maps) l acc)) -> P (Bucket.store b).
Proof.
  intros Hmaps. induction l as [|x l IH]; intros [m c] Hacc; [exact Hacc|].
  simpl. apply IH. unfold assign.
  destruct (cheapest maps x) as [o|] eqn:E; [|exact Hacc].
  simpl. intros k b H. apply bought_In in H as [(b' & H & ->) | ->].
  - eapply Hacc, H.
  - eapply Hmaps, E.
Qed.

Lemma greedy_stores_available available groceryList k b :
  In (k, b) (fst (greedy Array_sort available groceryList)) ->
  In (Bucket.store b) available.
Proof.
  unfold greedy.
  apply (assign_stores (fun s => In s available)); [|intros ? ? []].
  intros x o H. apply cheapest_from_last in H as (last & _ & H).
  apply offers_In in H. tauto.
Qed.

Lemma availableStores_In stores radius s :
  In s (availableStores stores radius) <-> In s stores /\ Store.distance s <= radius.
Proof. unfold availableStores. rewrite filter_In, Qle_bool_iff. reflexivity. Qed.

(** The shape of every route the optimizer sets. *)
Lemma optimize_Routed stores groceryList radius maxStores r t :
  optimize stores groceryList radius maxStores = Routed r t ->
  let available := availableStores stores radius in
  let kept :=
    routeStores Array_sort (fst (greedy Array_sort available groceryList)) maxStores in
  groceryList <> [] /\ available <> []
  /\ ShoppingRoute.stores r = map Bucket.store kept
  /\ ShoppingRoute.totalCost r = snd (greedy Array_sort available groceryList)
  /\ ShoppingRoute.totalDistance r = totalDistance kept
  /\ ShoppingRoute.savings r
     = num_sub (expensiveStoreCost available groceryList)
         (Fin (snd (greedy Array_sort available groceryList)))
  /\ t = toast_optimized (length kept).
Proof.
  unfold optimize, optimizeRouteWith.
  destruct groceryList as [|x gl]; [discriminate|].
  destruct (availableStores stores radius) as [|s av]; [discriminate|].
  destruct (greedy _ _ _) as [m c]. intros [= <- <-]. simpl.
  repeat split; discriminate.
Qed.

Lemma optimize_routes stores groceryList radius maxStores :
  groceryList <> [] -> availableStores stores radius <> [] ->
  exists r t, optimize stores groceryList radius maxStores = Routed r t.
Proof.
  unfold optimize, optimizeRouteWith. intros Hgl Hav.
  destruct groceryList; [congruence|].
  destruct (availableStores stores radius); [congruence|].
  destruct (greedy _ _ _). eauto.
Qed.

(** ** Failure modes *)

(** C7, as the code has it: an empty grocery list is turned away with the
    "add items first" error toast and no route is set, whatever the candidate
    stores (an empty candidate list included), the radius and [maxStores]. *)
Theorem empty_list_rejected sort stores radius maxStores :
  optimizeRouteWith sort stores [] radius maxStores = Rejected toast_empty_list.
Proof. reflexivity. Qed.

(** C7 as stated fails: with no items the optimizer sets no route at all. *)
Lemma empty_list_sets_no_route :
  optimizeRoute [] 5 3 = Rejected toast_empty_list
  /\ ~ exists r t, optimizeRoute [] 5 3 = Routed r t.
Proof. split; [reflexivity|]. intros (r & t & H). discriminate H. Qed.

(** C3, as the code has it: the "No stores found" error is raised exactly
    when the list is not empty and no candidate store lies within the radius;
    the only other failure is the "add items first" error, raised exactly when
    the list is empty; in every other case a route is set, so an item that no
    store stocks is not a failure. *)
Theorem failure_modes stores groceryList radius maxStores :
  (optimize stores groceryList radius maxStores = Rejected toast_no_stores
   <-> groceryList <> []
       /\ Forall (fun s => ~ Store.distance s <= radius) stores)
  /\ (optimize stores groceryList radius maxStores = Rejected toast_empty_list
      <-> groceryList = [])
  /\ (forall t, optimize stores groceryList radius maxStores = Rejected t ->
                t = toast_empty_list \/ t = toast_no_stores)
  /\ (groceryList <> [] ->
      Exists (fun s => Store.distance s <= radius) stores ->
      exists r t, optimize stores groceryList radius maxStores = Routed r t).
Proof.
  assert (availableStores stores radius = []
          <-> Forall (fun s => ~ Store.distance s <= radius) stores) as Hnone.
  { rewrite List.Forall_forall. split.
    - intros H s Hs Hd.
      assert (In s (availableStores stores radius)) as Hin
        by (apply availableStores_In; auto).
      rewrite H in Hin. destruct Hin.
    - intros H. destruct (availableStores stores radius) as [|s av] eqn:E;
        [reflexivity|].
      assert (In s (availableStores stores radius)) as Hin
        by (rewrite E; left; reflexivity).
      apply availableStores_In in Hin as [Hs Hd]. destruct (H s Hs Hd). }
  unfold optimize, optimizeRouteWith.
  destruct groceryList as [|x gl].
  { split.
    { split; [discriminate|]. intros [H _]. congruence. }
    split.
    { split; intros _; reflexivity. }
    split.
    { intros t E. injection E as <-. left. reflexivity. }
    congruence. }
  destruct (availableStores stores radius) as [|s av] eqn:E.
  { split.
    { split; intros _; [|reflexivity].
      split; [discriminate|]. apply Hnone. reflexivity. }
    split.
    { split; discriminate. }
    split.
    { intros t Et. injection Et as <-. right. reflexivity. }
    intros _ Hex. apply List.Exists_exists in Hex as (s & Hs & Hd).
    assert (In s (availableStores stores radius)) as Hin
      by (apply availableStores_In; auto).
    rewrite E in Hin. destruct Hin. }
  destruct (greedy _ _ _) as [m c].
  split.
  { split; [discriminate|]. intros [_ H]. apply Hnone in H. discriminate. }
  split.
  { split; discriminate. }
  split; [discriminate|]. eauto.
Qed.

(** C3 as stated fails: the empty list is a second failure mode. *)
Lemma empty_list_is_a_failure :
  optimizeRoute [] 5 3 = Rejected toast_empty_list
  /\ toast_empty_list <> toast_no_stores.
Proof. split; [reflexivity | discriminate]. Qed.

(** ** The selected stores *)

(** C5: with a positive [maxStores], at most [maxStores] stores are selected
    and each of them lies within the radius, whatever the candidate list
    holds. *)
Theorem selected_within_limits stores groceryList radius maxStores r t :
  (0 < maxStores)%Z ->
  optimize stores groceryList radius maxStores = Routed r t ->
  (Z.of_nat (length (ShoppingRoute.stores r)) <= maxStores)%Z
  /\ Forall (fun s => Store.distance s <= radius) (ShoppingRoute.stores r).
Proof.
  intros Hmax H. apply optimize_Routed in H as (_ & _ & -> & _).
  split.
  - rewrite length_map. apply slice0_length_positive, Hmax.
  - apply List.Forall_forall. intros s Hs.
    apply in_map_iff in Hs as (b & <- & Hb).
    apply slice0_In in Hb. unfold visitOrder in Hb.
    apply (proj1 (Array_sort_In (fun b => Store.distance (Bucket.store b)) _ _))
      in Hb.
    apply values_In in Hb as (k & Hb).
    apply greedy_stores_available, availableStores_In in Hb. tauto.
Qed.

Lemma selected_within_limits_witness :
  exists r t,
    optimizeRoute [item "milk" 1; item "eggs" 2; item "bread" 1] 4 1 = Routed r t
    /\ (Z.of_nat (length (ShoppingRoute.stores r)) <= 1)%Z
    /\ Forall (fun s => Store.distance s <= 4) (ShoppingRoute.stores r).
Proof.
  eexists _, _. split; [vm_compute; reflexivity|].
  eapply (selected_within_limits sampleStores
            [item "milk" 1; item "eggs" 2; item "bread" 1] 4 1);
    [lia | vm_compute; reflexivity].
Defined.

(** C8, as the code has it: [maxStores = 0] selects no store; a negative
    [maxStores] drops that many stores from the far end of the visiting
    order, so with [received] stores having an item the selection is empty
    only when [received <= - maxStores]. *)
Theorem nonpositive_maxStores stores groceryList radius maxStores r t :
  (maxStores <= 0)%Z ->
  optimize stores groceryList radius maxStores = Routed r t ->
  let storeItemMap :=
    fst (greedy Array_sort (availableStores stores radius) groceryList) in
  let received := length storeItemMap in
  (maxStores = 0%Z -> ShoppingRoute.stores r = [])
  /\ ((maxStores < 0)%Z ->
      ShoppingRoute.stores r
      = map Bucket.store
          (take (received - Z.to_nat (- maxStores))
             (visitOrder Array_sort storeItemMap)))
  /\ (ShoppingRoute.stores r = [] <->
      maxStores = 0%Z \/ (Z.of_nat received <= - maxStores)%Z).
Proof.
  intros Hmax H. apply optimize_Routed in H as (_ & _ & -> & _).
  cbv zeta. unfold routeStores.
  set (m := fst (greedy Array_sort (availableStores stores radius) groceryList)).
  set (received := length m).
  assert (length (visitOrder Array_sort m) = received) as Hlen.
  { unfold visitOrder. rewrite Array_sort_length. apply values_length. }
  destruct (Z.eq_dec maxStores 0%Z) as [->|Hne].
  - rewrite slice0_zero. simpl. repeat split; auto. lia.
  - rewrite slice0_negative, Hlen by lia.
    split; [lia|]. split; [reflexivity|].
    split.
    + intros H. right. apply (f_equal length) in H.
      rewrite length_map, length_take, Hlen in H. simpl in H. lia.
    + intros [?|H]; [lia|].
      replace (received - Z.to_nat (- maxStores))%nat with 0%nat by lia.
      reflexivity.
Qed.

Lemma nonpositive_maxStores_witness :
  exists r t,
    optimizeRoute [item "milk" 1; item "eggs" 2] 5 (-1) = Routed r t
    /\ map Store.id (ShoppingRoute.stores r) = ["2"].
Proof.
  eexists _, _. split; [vm_compute; reflexivity|].
  pose proof (nonpositive_maxStores sampleStores
                [item "milk" 1; item "eggs" 2] 5 (-1) _ _
                ltac:(lia) ltac:(vm_compute; reflexivity)) as (_ & H & _).
  rewrite (H ltac:(lia)). vm_compute. reflexivity.
Defined.

(** C8 as stated fails: with [maxStores = -1] and two stores having an item,
    the nearer one is still selected. *)
Lemma negative_maxStores_selects :
  exists r t,
    optimizeRoute [item "milk" 1; item "eggs" 2] 5 (-1) = Routed r t
    /\ map Store.id (ShoppingRoute.stores r) = ["2"]
    /\ ShoppingRoute.stores r <> [].
Proof.
  eexists _, _. split; [vm_compute; reflexivity|].
  split; [vm_compute; reflexivity | discriminate].
Qed.

(** ** Determinism *)

(** C6, as the code has it: [optimizeRoute] is deterministic.  Its result is
    fixed by the stores, the grocery list, the radius and [maxStores]: any
    two engines whose [sort] meets the ECMAScript contract compute the same
    outcome.  The mock fallback of [optimizeShoppingRoute] is deterministic
    in its [Plan] only. *)
Theorem optimizeRoute_deterministic (sort1 sort2 : sort_function)
    stores groceryList radius maxStores random1 random2 items names :
  sort_contract sort1 -> sort_contract sort2 ->
  optimizeRouteWith sort1 stores groceryList radius maxStores
  = optimizeRouteWith sort2 stores groceryList radius maxStores
  /\ OptimizedRoute.Plan (optimizeShoppingRoute None random1 items names)
     = OptimizedRoute.Plan (optimizeShoppingRoute None random2 items names).
Proof.
  intros H1 H2. split; [|reflexivity].
  rewrite (optimizeRouteWith_conforming sort1 H1).
  rewrite (optimizeRouteWith_conforming sort2 H2). reflexivity.
Qed.

Lemma optimizeRoute_deterministic_witness :
  optimizeRouteWith Array_sort sampleStores [item "milk" 1; item "eggs" 2] 5 3
  = optimizeRouteWith Array_sort_left sampleStores [item "milk" 1; item "eggs" 2] 5 3
  /\ OptimizedRoute.Plan
       (optimizeShoppingRoute None 0 ["milk"; "eggs"; "bread"] ["Kroger"])
     = OptimizedRoute.Plan
         (optimizeShoppingRoute None (1 # 2) ["milk"; "eggs"; "bread"] ["Kroger"]).
Proof.
  apply (optimizeRoute_deterministic Array_sort Array_sort_left);
    [apply Array_sort_contract | apply Array_sort_left_contract].
Defined.

(** C6 as stated fails on the mock fallback: with the same items and stores,
    two calls differ in [Cost] as soon as [Math.random] draws differently. *)
Lemma mock_cost_is_random :
  optimizeShoppingRoute None 0 ["milk"; "eggs"; "bread"] ["Kroger"]
  <> optimizeShoppingRoute None (1 # 2) ["milk"; "eggs"; "bread"] ["Kroger"]
  /\ OptimizedRoute.Cost
       (optimizeShoppingRoute None 0 ["milk"; "eggs"; "bread"] ["Kroger"]) == 25
  /\ OptimizedRoute.Cost
       (optimizeShoppingRoute None (1 # 2) ["milk"; "eggs"; "bread"] ["Kroger"]) == 50.
Proof.
  split; [|split; reflexivity].
  intros H. apply (f_equal OptimizedRoute.Cost) in H. vm_compute in H.
  discriminate H.
Qed.

(** ** Orders *)


Lemma StronglySorted_take {A : Type} (R : A -> A -> Prop) n l :
  StronglySorted R l -> StronglySorted R (take n l).
Proof.
  intros H. revert n. induction H as [|x l Hl IH Hx]; intros [|n]; simpl;
    try constructor.
  - apply IH.
  - apply List.Forall_forall. intros y Hy.
    rewrite List.Forall_forall in Hx. apply Hx.
    apply list_elem_of_In. apply list_elem_of_In in Hy.
    eapply subseteq_take, Hy.
Qed.

Lemma StronglySorted_map {A B : Type} (f : A -> B) (R : B -> B -> Prop) l :
  StronglySorted (fun a b => R (f a) (f b)) l -> StronglySorted R (map f l).
Proof.
  induction 1 as [|x l Hl IH Hx]; simpl; constructor; [exact IH|].
  apply List.Forall_forall. intros y Hy. apply in_map_iff in Hy as (z & <- & Hz).
  rewrite List.Forall_forall in Hx. apply Hx, Hz.
Qed.











(** ** Items no store stocks *)

Lemma find_filter {A : Type} (p q : A -> bool) (l : list A) :
  (forall x, p x = true -> q x = true) ->
  find p (List.filter q l) = find p l.
Proof.
  intros H. induction l as [|x l IH]; [reflexivity|].
  simpl. destruct (q x) eqn:Eq; simpl.
  - destruct (p x); [reflexivity | exact IH].
  - destruct (p x) eqn:Ep; [|exact IH].
    apply H in Ep. congruence.
Qed.

Lemma fulfillable_name available x y :
  GroceryItem.name x = GroceryItem.name y ->
  fulfillable available x = fulfillable available y.
Proof. unfold fulfillable. intros ->. reflexivity. Qed.

Lemma last_named_wanted available groceryList x :
  fulfillable available x = true ->
  last_named (GroceryItem.name x) (List.filter (fulfillable available) groceryList)
  = last_named (GroceryItem.name x) groceryList.
Proof.
  intros Hx. unfold last_named. rewrite <- filter_rev. apply find_filter.
  intros y Hy. apply String.eqb_eq in Hy.
  rewrite (fulfillable_name available y x Hy). exact Hx.
Qed.

Lemma cheapest_wanted available groceryList x :
  fulfillable available x = true ->
  cheapest (itemStoreMaps Array_sort available
              (List.filter (fulfillable available) groceryList)) x
  = cheapest (itemStoreMaps Array_sort available groceryList) x.
Proof.
  intros Hx. unfold cheapest.
  rewrite !itemStoreMaps_lookup, last_named_wanted by exact Hx. reflexivity.
Qed.

Lemma cheapest_unfulfillable available groceryList x :
  fulfillable available x = false ->
  cheapest (itemStoreMaps Array_sort available groceryList) x = None.
Proof.
  intros Hx. destruct (cheapest _ x) as [o|] eqn:E; [|reflexivity].
  apply cheapest_from_last in E as (last & Hlast & Hin).
  apply last_named_In in Hlast as [_ Hn].
  rewrite (offers_nil available last) in Hin; [destruct Hin|].
  rewrite (fulfillable_name available last x Hn). exact Hx.
Qed.

Lemma greedy_wanted available groceryList :
  greedy Array_sort available groceryList
  = greedy Array_sort available (List.filter (fulfillable available) groceryList).
Proof.
  unfold greedy.
  generalize (JsObject.empty (V := Bucket.t), 0) as acc.
  generalize groceryList at 2 4 as l.
  induction l as [|x l IH]; intros acc; [reflexivity|].
  simpl. destruct (fulfillable available x) eqn:Hx; simpl.
  - rewrite IH. f_equal. destruct acc as [m c]. unfold assign.
    rewrite cheapest_wanted by exact Hx. reflexivity.
  - rewrite IH. f_equal. destruct acc as [m c]. unfold assign.
    rewrite cheapest_unfulfillable by exact Hx. reflexivity.
Qed.

(** C9, as the code has it: an item that no available store stocks leaves
    [storeItemMap] and [totalCost] as they are and does not stop the
    optimization; the stores, the total cost and the total distance of the
    route are those of the list without such items.  The route has no field
    for the unmatched items. *)
Theorem unfulfillable_items_skipped stores groceryList radius maxStores :
  let available := availableStores stores radius in
  let wanted := List.filter (fulfillable available) groceryList in
  (forall x storeItemMap totalCost,
      fulfillable available x = false ->
      assign (itemStoreMaps Array_sort available groceryList)
        (storeItemMap, totalCost) x
      = (storeItemMap, totalCost))
  /\ greedy Array_sort available groceryList = greedy Array_sort available wanted
  /\ (groceryList <> [] -> available <> [] ->
      exists r t,
        optimize stores groceryList radius maxStores = Routed r t
        /\ ShoppingRoute.stores r
           = map Bucket.store
               (routeStores Array_sort
                  (fst (greedy Array_sort available wanted)) maxStores)
        /\ ShoppingRoute.totalCost r = snd (greedy Array_sort available wanted)
        /\ ShoppingRoute.totalDistance r
           = totalDistance
               (routeStores Array_sort
                  (fst (greedy Array_sort available wanted)) maxStores)).
Proof.
  intros available wanted. split.
  { intros x m c Hx. unfold assign.
    rewrite cheapest_unfulfillable by exact Hx. reflexivity. }
  split; [apply greedy_wanted|].
  intros Hgl Hav.
  destruct (optimize_routes stores groceryList radius maxStores Hgl Hav)
    as (r & t & H).
  exists r, t. split; [exact H|].
  apply optimize_Routed in H as (_ & _ & -> & -> & -> & _).
  fold available. rewrite (greedy_wanted available groceryList).
  fold wanted. auto.
Qed.

(** C9 as stated fails: two lists that differ only in the name of an item no
    store stocks give the same outcome, so the unmatched names cannot be read
    off the result. *)
Lemma unmatched_names_not_reported :
  optimizeRoute [item "caviar" 1] 5 3 = optimizeRoute [item "truffle" 1] 5 3
  /\ fulfillable (availableStores sampleStores 5) (item "caviar" 1) = false
  /\ fulfillable (availableStores sampleStores 5) (item "truffle" 1) = false
  /\ ~ exists unmatched : Outcome -> list string,
         forall groceryList,
           unmatched (optimizeRoute groceryList 5 3)
           = map GroceryItem.name
               (List.filter
                  (fun x => negb (fulfillable (availableStores sampleStores 5) x))
                  groceryList).
Proof.
  assert (optimizeRoute [item "caviar" 1] 5 3
          = optimizeRoute [item "truffle" 1] 5 3) as Hsame
    by (vm_compute; reflexivity).
  split; [exact Hsame|].
  split; [vm_compute; reflexivity|].
  split; [vm_compute; reflexivity|].
  intros [unmatched H].
  pose proof (H [item "caviar" 1]) as H1.
  pose proof (H [item "truffle" 1]) as H2.
  rewrite Hsame, H2 in H1. vm_compute in H1. discriminate H1.
Qed.

(** ** Costs *)

Lemma keptCost_from (l : list Bucket.t) (start : Q) :
  fold_left (fun sum b => sum + Bucket.cost b) l start == start + keptCost l.
Proof.
  unfold keptCost. revert start.
  induction l as [|b l IH]; intros start; simpl.
  - lra.
  - rewrite IH, (IH (0 + Bucket.cost b)). lra.
Qed.

Lemma keptCost_cons b l : keptCost (b :: l) == Bucket.cost b + keptCost l.
Proof.
  unfold keptCost at 1. simpl. rewrite keptCost_from. lra.
Qed.

Lemma bought_cost storeItemMap x o :
  keptCost (map snd (bought storeItemMap x o))
  == keptCost (map snd storeItemMap) + Offer.price o.
Proof.
  unfold bought. induction storeItemMap as [|[k b] m IH].
  - simpl. rewrite String.eqb_refl. simpl. rewrite !keptCost_cons. simpl.
    unfold keptCost. simpl. lra.
  - simpl. destruct (String.eqb k (Store.id (Offer.store o))) eqn:E.
    + simpl. rewrite E. simpl. rewrite !keptCost_cons. simpl. lra.
    + destruct (JsObject.get m (Store.id (Offer.store o))) eqn:G.
      * simpl. rewrite E. simpl. rewrite !keptCost_cons, IH. lra.
      * simpl. rewrite E. simpl. rewrite !keptCost_cons, IH. lra.
Qed.

(** [totalCost] is the cost of every bucket of [storeItemMap], whether the
    store is kept by [slice] or not. *)
Lemma totalCost_all_buckets available groceryList :
  snd (greedy Array_sort available groceryList)
  == keptCost (map snd (fst (greedy Array_sort available groceryList))).
Proof.
  unfold greedy.
  generalize (itemStoreMaps Array_sort available groceryList) as maps.
  intros maps.
  assert (forall l acc, snd acc == keptCost (map snd (fst acc)) ->
            snd (fold_left (assign maps) l acc)
            == keptCost (map snd (fst (fold_left (assign maps) l acc)))) as H.
  { induction l as [|x l IH]; intros [m c] Hacc; [exact Hacc|].
    simpl. apply IH. unfold assign.
    destruct (cheapest maps x) as [o|]; [|exact Hacc].
    simpl in *. rewrite bought_cost, Hacc. reflexivity. }
  apply H. reflexivity.
Qed.

(** C1 on a failing input: milk is cheapest at store 3 and eggs at store 2;
    with [maxStores = 1] only store 2 is kept, yet [totalCost] is 7.38, the
    cost of both items, while the items bought at the kept store cost 3.89. *)
Theorem totalCost_counts_dropped_stores :
  let groceryList := [item "milk" 1; item "eggs" 1] in
  let storeItemMap :=
    fst (greedy Array_sort (availableStores sampleStores 5) groceryList) in
  let kept := routeStores Array_sort storeItemMap 1 in
  exists r t,
    optimizeRoute groceryList 5 1 = Routed r t
    /\ map Store.id (ShoppingRoute.stores r) = ["2"]
    /\ map Bucket.items kept = [["1 pcs eggs"]]
    /\ keptCost kept == 3.89
    /\ ShoppingRoute.totalCost r == 7.38
    /\ ~ ShoppingRoute.totalCost r == keptCost kept.
Proof.
  cbv zeta. eexists _, _. split; [vm_compute; reflexivity|].
  split; [vm_compute; reflexivity|].
  split; [vm_compute; reflexivity|].
  split; [vm_compute; reflexivity|].
  split; [vm_compute; reflexivity|].
  vm_compute. discriminate.
Qed.

(** C2 on a failing input: for a list whose only item no store stocks,
    [Math.max()] of no prices is [-Infinity] and so are the baseline and the
    savings, where the specification has 0. *)
Theorem savings_of_unfulfillable_item :
  optimizeRoute [item "caviar" 1] 5 3
  = Routed (ShoppingRoute.mk [] 0 0 NegInf) (toast_optimized 0)
  /\ maxPrice (availableStores sampleStores 5) (item "caviar" 1) = NegInf
  /\ expensiveStoreCost (availableStores sampleStores 5) [item "caviar" 1] = NegInf.
Proof. repeat split; vm_compute; reflexivity. Qed.

(** Scenario A of the specification: milk goes to store 2, for 3.49, at
    distance 2, saving 0.50 over the dearest store. *)
Example scenario_A :
  exists r t,
    optimize scenarioStores [item "milk" 1] 5 3 = Routed r t
    /\ map Store.id (ShoppingRoute.stores r) = ["2"]
    /\ ShoppingRoute.totalCost r == 3.49
    /\ ShoppingRoute.totalDistance r == 2
    /\ exists saved, ShoppingRoute.savings r = Fin saved /\ saved == 0.5.
Proof.
  eexists _, _. split; [vm_compute; reflexivity|].
  split; [vm_compute; reflexivity|].
  split; [vm_compute; reflexivity|].
  split; [vm_compute; reflexivity|].
  eexists. split; vm_compute; reflexivity.
Qed.

(** * Further properties of [optimizeRoute]

    ** Rearrangements *)

Lemma sort_insert_perm {A : Type} (cmp : comparator A) x l :
  Permutation (sort_insert cmp x l) (x :: l).
Proof.
  induction l as [|y l IH]; simpl; [reflexivity|].
  destruct (Qle_bool (cmp x y) 0); [reflexivity|].
  rewrite IH. apply perm_swap.
Qed.

Lemma Array_sort_perm {A : Type} (cmp : comparator A) l :
  Permutation (Array_sort A cmp l) l.
Proof.
  induction l as [|x l IH]; [reflexivity|].
  unfold Array_sort in *. simpl. rewrite sort_insert_perm, IH. reflexivity.
Qed.

Lemma insert_index_perm {V : Type} n (v : V) l :
  Permutation (JsObject.insert_index n v l) ((n, v) :: l).
Proof.
  induction l as [|[m w] l IH]; simpl; [reflexivity|].
  destruct (n <=? m)%N; [reflexivity|].
  rewrite IH. apply perm_swap.
Qed.

Lemma values_perm {V : Type} (o : JsObject.t V) :
  Permutation (JsObject.values o) (map snd o).
Proof.
  unfold JsObject.values. induction o as [|[k v] o IH]; [reflexivity|].
  simpl. destruct (JsObject.array_index k) as [n|].
  - rewrite insert_index_perm. simpl. rewrite IH. reflexivity.
  - rewrite <- Permutation_middle, IH. reflexivity.
Qed.

Lemma visitOrder_perm (storeItemMap : JsObject.t Bucket.t) :
  Permutation (visitOrder Array_sort storeItemMap) (map snd storeItemMap).
Proof. unfold visitOrder. rewrite Array_sort_perm. apply values_perm. Qed.

(** ** The reported total and the stores kept *)

(** X2: the selected stores are listed nearest first: no store of the route
    is nearer than one listed before it, whatever [maxStores] is. *)
Theorem selected_nearest_first stores groceryList radius maxStores r t :
  optimize stores groceryList radius maxStores = Routed r t ->
  StronglySorted (fun a b => Store.distance a <= Store.distance b)
    (ShoppingRoute.stores r).
Proof.
  intros H. apply optimize_Routed in H as (_ & _ & -> & _).
  apply StronglySorted_map. unfold routeStores.
  destruct (slice0_take
              (visitOrder Array_sort
                 (fst (greedy Array_sort (availableStores stores radius)
                         groceryList))) maxStores) as (k & -> & _).
  apply StronglySorted_take.
  apply (Array_sort_stable (fun b => Store.distance (Bucket.store b))).
Qed.

Lemma selected_nearest_first_witness :
  exists r t,
    optimizeRoute [item "milk" 1; item "eggs" 2; item "bread" 1] 5 3 = Routed r t
    /\ StronglySorted (fun a b => Store.distance a <= Store.distance b)
         (ShoppingRoute.stores r).
Proof.
  eexists _, _. split; [vm_compute; reflexivity|].
  eapply (selected_nearest_first sampleStores
            [item "milk" 1; item "eggs" 2; item "bread" 1] 5 3).
  vm_compute. reflexivity.
Defined.

(** ** One bucket per store id *)

Section ObjectKeys.
Context {V : Type}.
Implicit Types (o : JsObject.t V) (k : string) (v : V).

Lemma get_None o k : JsObject.get o k = None <-> ~ In k (map fst o).
Proof.
  induction o as [|[k' w] o IH]; simpl; [tauto|].
  destruct (String.eqb k' k) eqn:E.
  - apply String.eqb_eq in E. split; [discriminate | intros H; destruct H; auto].
  - apply String.eqb_neq in E. rewrite IH. tauto.
Qed.

Lemma set_fresh o k v : JsObject.get o k = None -> JsObject.set o k v = o ++ [(k, v)].
Proof.
  induction o as [|[k' w] o IH]; simpl; [reflexivity|].
  destruct (String.eqb k' k); [discriminate|]. intros H. rewrite IH by exact H.
  reflexivity.
Qed.

Lemma update_keys o k (f : V -> V) :
  map fst (JsObject.update o k f) = map fst o.
Proof.
  induction o as [|[k' w] o IH]; simpl; [reflexivity|].
  destruct (String.eqb k' k); simpl; [reflexivity|]. rewrite IH. reflexivity.
Qed.

End ObjectKeys.

Lemma bought_keyed storeItemMap x o :
  keyed_by_id storeItemMap -> keyed_by_id (bought storeItemMap x o).
Proof.
  unfold keyed_by_id, bought. intros [Hnd Hid].
  destruct (JsObject.get storeItemMap (Store.id (Offer.store o))) eqn:G.
  - rewrite update_keys. split; [exact Hnd|].
    clear G Hnd. induction storeItemMap as [|[k b] m IH]; simpl; [constructor|].
    inversion Hid as [|? ? Hk Hm]; subst.
    destruct (String.eqb k (Store.id (Offer.store o))); constructor; auto.
  - rewrite set_fresh by exact G. rewrite update_keys, map_app. simpl.
    split.
    + apply NoDup_app. split; [exact Hnd|]. split.
      * intros k Hk Hk'. apply list_elem_of_In in Hk.
        apply list_elem_of_In in Hk'. destruct Hk' as [<-|[]].
        apply get_None in G. auto.
      * apply NoDup_singleton.
    + apply get_None in G. clear Hnd.
      induction storeItemMap as [|[k b] m IH]; simpl.
      * rewrite String.eqb_refl. constructor; [reflexivity | constructor].
      * inversion Hid as [|? ? Hk Hm]; subst. simpl in G.
        destruct (String.eqb k (Store.id (Offer.store o))) eqn:E.
        { apply String.eqb_eq in E. tauto. }
        constructor; [exact Hk|]. apply IH; [exact Hm | tauto].
Qed.

Lemma greedy_keyed available groceryList :
  keyed_by_id (fst (greedy Array_sort available groceryList)).
Proof.
  unfold greedy.
  generalize (itemStoreMaps Array_sort available groceryList) as maps.
  intros maps.
  assert (forall l acc, keyed_by_id (fst acc) ->
            keyed_by_id (fst (fold_left (assign maps) l acc))) as H.
  { induction l as [|x l IH]; intros [m c] Hacc; [exact Hacc|].
    simpl. apply IH. unfold assign.
    destruct (cheapest maps x) as [o|]; [|exact Hacc].
    simpl. apply bought_keyed, Hacc. }
  apply H. split; constructor.
Qed.

(** X3: no store id occurs twice among the selected stores, also when the
    candidate list holds several stores with the same id. *)
Theorem selected_ids_distinct stores groceryList radius maxStores r t :
  optimize stores groceryList radius maxStores = Routed r t ->
  NoDup (map Store.id (ShoppingRoute.stores r)).
Proof.
  intros H. apply optimize_Routed in H as (_ & _ & -> & _).
  set (m := fst (greedy Array_sort (availableStores stores radius) groceryList)).
  destruct (greedy_keyed (availableStores stores radius) groceryList)
    as [Hnd Hid]. fold m in Hnd, Hid.
  assert (NoDup (map (fun b => Store.id (Bucket.store b))
                   (visitOrder Array_sort m))) as Hvisit.
  { rewrite visitOrder_perm, map_map.
    replace (map (fun p => Store.id (Bucket.store (snd p))) m) with (map fst m);
      [exact Hnd|].
    clear Hnd. induction Hid as [|p m' Hp _ IH]; simpl; [reflexivity|].
    rewrite Hp, IH. reflexivity. }
  rewrite map_map. unfold routeStores.
  destruct (slice0_take (visitOrder Array_sort m) maxStores) as (k & -> & _).
  rewrite <- (take_drop k (visitOrder Array_sort m)), map_app in Hvisit.
  apply NoDup_app in Hvisit. tauto.
Qed.

Lemma selected_ids_distinct_witness :
  exists r t,
    optimize (sampleStores ++ sampleStores)
      [item "milk" 1; item "eggs" 2; item "milk" 3] 5 3 = Routed r t
    /\ NoDup (map Store.id (ShoppingRoute.stores r)).
Proof.
  eexists _, _. split; [vm_compute; reflexivity|].
  eapply (selected_ids_distinct (sampleStores ++ sampleStores)
            [item "milk" 1; item "eggs" 2; item "milk" 3] 5 3).
  vm_compute. reflexivity.
Defined.

(** ** Distance *)

Lemma totalDistance_from (l : list Bucket.t) (start : Q) :
  fold_left (fun sum s => sum + Store.distance (Bucket.store s)) l start
  == start + totalDistance l.
Proof.
  unfold totalDistance. revert start.
  induction l as [|b l IH]; intros start; simpl.
  - lra.
  - rewrite IH, (IH (0 + Store.distance (Bucket.store b))). lra.
Qed.

Lemma totalDistance_cons b l :
  totalDistance (b :: l) == Store.distance (Bucket.store b) + totalDistance l.
Proof. unfold totalDistance at 1. simpl. rewrite totalDistance_from. lra. Qed.

Lemma totalDistance_bound (l : list Bucket.t) (radius : Q) :
  Forall (fun b => Store.distance (Bucket.store b) <= radius) l ->
  totalDistance l <= inject_Z (Z.of_nat (length l)) * radius.
Proof.
  induction 1 as [|b l Hb _ IH].
  - unfold totalDistance. simpl. change (inject_Z (Z.of_nat 0)) with 0. lra.
  - rewrite totalDistance_cons. simpl length. rewrite Nat2Z.inj_succ.
    unfold Z.succ. rewrite inject_Z_plus. change (inject_Z 1) with 1. lra.
Qed.

Lemma kept_within_radius stores groceryList radius maxStores :
  Forall (fun b => Store.distance (Bucket.store b) <= radius)
    (routeStores Array_sort
       (fst (greedy Array_sort (availableStores stores radius) groceryList))
       maxStores).
Proof.
  apply List.Forall_forall. intros b Hb. unfold routeStores in Hb.
  apply slice0_In in Hb. unfold visitOrder in Hb.
  apply (proj1 (Array_sort_In (fun b => Store.distance (Bucket.store b)) _ _))
    in Hb.
  apply values_In in Hb as (k & Hb).
  apply greedy_stores_available, availableStores_In in Hb. tauto.
Qed.

(** X4: with a positive [maxStores] and a non-negative radius, the reported
    [totalDistance] is at most [maxStores] times the radius; it is the sum of
    the distances of the selected stores, not the length of a tour. *)
Theorem totalDistance_within_budget stores groceryList radius maxStores r t :
  (0 < maxStores)%Z -> 0 <= radius ->
  optimize stores groceryList radius maxStores = Routed r t ->
  ShoppingRoute.totalDistance r
  == fold_right (fun s sum => Store.distance s + sum) 0 (ShoppingRoute.stores r)
  /\ ShoppingRoute.totalDistance r <= inject_Z maxStores * radius.
Proof.
  intros Hmax Hradius H.
  apply optimize_Routed in H as (_ & _ & -> & _ & -> & _).
  pose proof (kept_within_radius stores groceryList radius maxStores) as Hkept.
  set (kept := routeStores Array_sort _ maxStores) in *.
  split.
  - clear. induction kept as [|b l IH]; [reflexivity|].
    rewrite totalDistance_cons. simpl. rewrite IH. reflexivity.
  - assert (Z.of_nat (length kept) <= maxStores)%Z as Hlen
      by (apply slice0_length_positive, Hmax).
    apply totalDistance_bound in Hkept.
    assert (inject_Z (Z.of_nat (length kept)) <= inject_Z maxStores) as Hle
      by (rewrite <- Zle_Qle; exact Hlen).
    nra.
Qed.

Lemma totalDistance_within_budget_witness :
  exists r t,
    optimizeRoute [item "milk" 1; item "eggs" 2] 5 2 = Routed r t
    /\ ShoppingRoute.totalDistance r <= inject_Z 2 * 5.
Proof.
  eexists _, _. split; [vm_compute; reflexivity|].
  eapply (totalDistance_within_budget sampleStores
            [item "milk" 1; item "eggs" 2] 5 2).
  - lia.
  - vm_compute. discriminate.
  - vm_compute. reflexivity.
Defined.

(** ** The cheapest option *)

Lemma fulfillable_offers available x :
  fulfillable available x = true <-> offers available x <> [].
Proof.
  split.
  - intros H E. unfold fulfillable in H. apply existsb_exists in H as (s & Hs & Hst).
    assert (In (Offer.mk s (price_at s (GroceryItem.name x)
                            * inject_Z (GroceryItem.quantity x)))
              (offers available x)) as Hin
      by (apply offers_In; simpl; auto).
    rewrite E in Hin. destruct Hin.
  - intros H. destruct (fulfillable available x) eqn:E; [reflexivity|].
    apply offers_nil in E. contradiction.
Qed.

Lemma assigned_iff_fulfillable available groceryList x :
  In x groceryList ->
  fulfillable available x = true
  <-> exists o, cheapest (itemStoreMaps Array_sort available groceryList) x = Some o.
Proof.
  intros Hx.
  destruct (last_named_is_Some groceryList x Hx) as [last Hlast].
  pose proof (last_named_In _ _ _ Hlast) as [_ Hn].
  split.
  - intros Hf. rewrite <- (fulfillable_name available last x Hn) in Hf.
    apply fulfillable_offers in Hf. unfold cheapest.
    rewrite itemStoreMaps_lookup, Hlast. simpl.
    destruct (Array_sort _ by_price (offers available last)) as [|o rest] eqn:E;
      [|eauto].
    apply (f_equal length) in E. rewrite Array_sort_length in E.
    destruct (offers available last); [contradiction | discriminate].
  - intros [o Ho]. destruct (fulfillable available x) eqn:E; [reflexivity|].
    rewrite cheapest_unfulfillable in Ho by exact E. discriminate.
Qed.

(** X5: an entry of the list is assigned exactly when some available store
    stocks it, and then to an available store that stocks it and whose line
    cost (price times the quantity the option list was built with) is the
    lowest among the available stores stocking it. *)
Theorem cheapest_is_lowest available groceryList x :
  In x groceryList ->
  let maps := itemStoreMaps Array_sort available groceryList in
  (fulfillable available x = true <-> exists o, cheapest maps x = Some o)
  /\ forall o, cheapest maps x = Some o ->
       In (Offer.store o) available
       /\ stocks (Offer.store o) (GroceryItem.name x) = true
       /\ exists last,
            last_named (GroceryItem.name x) groceryList = Some last
            /\ forall s, In s available ->
                 stocks s (GroceryItem.name x) = true ->
                 Offer.price o
                 <= price_at s (GroceryItem.name x)
                    * inject_Z (GroceryItem.quantity last).
Proof.
  intros Hx maps.
  destruct (last_named_is_Some groceryList x Hx) as [last Hlast].
  pose proof (last_named_In _ _ _ Hlast) as [_ Hn].
  assert (maps !! GroceryItem.name x
          = Some (Array_sort _ by_price (offers available last))) as Hmap
    by (unfold maps; rewrite itemStoreMaps_lookup, Hlast; reflexivity).
  pose proof (Array_sort_stable Offer.price (offers available last)) as [Hs _].
  fold by_price in Hs.
  split; [apply assigned_iff_fulfillable, Hx|].
  intros o Ho.
  assert (In o (offers available last)) as Hin.
  { apply cheapest_from_last in Ho as (last' & Hlast' & Hin).
    rewrite Hlast in Hlast'. injection Hlast' as <-. exact Hin. }
  apply offers_In in Hin as (Hav & Hst & _). rewrite Hn in Hst.
  split; [exact Hav|]. split; [exact Hst|].
  exists last. split; [exact Hlast|].
  intros s Hsav Hsst.
  set (os := Offer.mk s (price_at s (GroceryItem.name last)
                         * inject_Z (GroceryItem.quantity last))).
  assert (In os (Array_sort _ by_price (offers available last))) as Hos.
  { apply (Array_sort_In Offer.price). apply offers_In. unfold os. simpl.
    rewrite Hn. repeat split; assumption. }
  unfold cheapest in Ho. rewrite Hmap in Ho.
  destruct (Array_sort _ by_price (offers available last)) as [|first rest];
    [discriminate|].
  injection Ho as ->. rewrite <- Hn.
  inversion Hs as [|? ? _ Hall]; subst.
  destruct Hos as [->|Hos]; [simpl; lra|].
  rewrite List.Forall_forall in Hall. apply (Hall os Hos).
Qed.

Lemma cheapest_is_lowest_witness :
  exists o,
    cheapest (itemStoreMaps Array_sort sampleStores
                [item "milk" 2; item "eggs" 1]) (item "milk" 2) = Some o
    /\ Store.id (Offer.store o) = "3"
    /\ forall s, In s sampleStores -> stocks s "milk" = true ->
         Offer.price o <= price_at s "milk" * inject_Z 2.
Proof.
  pose proof (cheapest_is_lowest sampleStores [item "milk" 2; item "eggs" 1]
                (item "milk" 2) ltac:(simpl; auto)) as [_ H].
  eexists. split; [vm_compute; reflexivity|].
  split; [reflexivity|].
  destruct (H _ ltac:(vm_compute; reflexivity)) as (_ & _ & last & Hlast & Hmin).
  vm_compute in Hlast. injection Hlast as <-. exact Hmin.
Defined.

(** ** What the buckets list *)

Lemma bought_labels storeItemMap x o :
  Permutation
    (concat (map (fun p => Bucket.items (snd p)) (bought storeItemMap x o)))
    (label x :: concat (map (fun p => Bucket.items (snd p)) storeItemMap)).
Proof.
  unfold bought. induction storeItemMap as [|[k b] m IH].
  - simpl. rewrite String.eqb_refl. simpl. reflexivity.
  - simpl. destruct (String.eqb k (Store.id (Offer.store o))) eqn:E.
    + simpl. rewrite E. simpl. rewrite <- app_assoc. simpl.
      symmetry. apply Permutation_middle.
    + destruct (JsObject.get m (Store.id (Offer.store o))) eqn:G.
      * simpl. rewrite E. simpl. rewrite IH. symmetry. apply Permutation_middle.
      * simpl. rewrite E. simpl. rewrite IH. symmetry. apply Permutation_middle.
Qed.

(** X6: across the buckets of [storeItemMap], every entry of the list that
    some available store stocks is listed exactly once (entries of the same
    label as often as they occur), and an entry no store stocks is listed
    nowhere. *)
Theorem stocked_entries_listed_once available groceryList :
  Permutation
    (concat (map (fun p => Bucket.items (snd p))
               (fst (greedy Array_sort available groceryList))))
    (map label (List.filter (fulfillable available) groceryList)).
Proof.
  unfold greedy.
  set (maps := itemStoreMaps Array_sort available groceryList).
  assert (forall l acc,
             (forall x, In x l -> In x groceryList) ->
             Permutation
               (concat (map (fun p => Bucket.items (snd p))
                          (fst (fold_left (assign maps) l acc))))
               (concat (map (fun p => Bucket.items (snd p)) (fst acc))
                ++ map label (List.filter (fulfillable available) l))) as H.
  { induction l as [|x l IH]; intros [m c] Hl.
    - simpl. rewrite app_nil_r. reflexivity.
    - simpl fold_left. rewrite IH by (intros y Hy; apply Hl; right; exact Hy).
      assert (In x groceryList) as Hx by (apply Hl; left; reflexivity).
      unfold assign. simpl List.filter.
      destruct (fulfillable available x) eqn:Hf.
      + apply (assigned_iff_fulfillable available groceryList x Hx) in Hf
          as [o Ho].
        fold maps in Ho. rewrite Ho. simpl. rewrite bought_labels.
        apply Permutation_middle.
      + unfold maps. rewrite cheapest_unfulfillable by exact Hf. reflexivity. }
  rewrite H by auto. reflexivity.
Qed.

(** ** Savings *)

Lemma Math_max_from (xs : list Q) (a : Q) :
  exists m,
    fold_left (fun acc x => num_max acc (Fin x)) xs (Fin a) = Fin m
    /\ a <= m /\ Forall (fun x => x <= m) xs.
Proof.
  revert a. induction xs as [|x xs IH]; intros a; simpl.
  - exists a. split; [reflexivity|]. split; [lra | constructor].
  - destruct (Qle_bool a x) eqn:E.
    + apply Qle_bool_iff in E. destruct (IH x) as (m & -> & Hx & Hxs).
      exists m. split; [reflexivity|]. split; [lra|]. constructor; assumption.
    + assert (x <= a) as Hxa.
      { destruct (Qlt_le_dec a x) as [Hlt|Hle]; [|exact Hle].
        assert (Qle_bool a x = true) as C by (apply Qle_bool_iff; lra).
        congruence. }
      destruct (IH a) as (m & -> & Ha & Hxs).
      exists m. split; [reflexivity|]. split; [lra|]. constructor; [lra|assumption].
Qed.

Lemma Math_max_finite (xs : list Q) :
  xs <> [] -> exists m, Math_max xs = Fin m /\ Forall (fun x => x <= m) xs.
Proof.
  destruct xs as [|x xs]; [congruence|]. intros _.
  unfold Math_max. simpl. destruct (Math_max_from xs x) as (m & -> & Hx & Hxs).
  exists m. split; [reflexivity|]. constructor; assumption.
Qed.

Lemma maxPrice_finite available x :
  fulfillable available x = true ->
  exists m,
    maxPrice available x = Fin m
    /\ forall s, In s available -> stocks s (GroceryItem.name x) = true ->
         price_at s (GroceryItem.name x) <= m.
Proof.
  intros Hf. unfold maxPrice.
  destruct (Math_max_finite
              (map (fun s => price_at s (GroceryItem.name x))
                 (List.filter (fun s => stocks s (GroceryItem.name x)) available)))
    as (m & -> & Hm).
  - unfold fulfillable in Hf. apply existsb_exists in Hf as (s & Hs & Hst).
    intros E. apply (f_equal length) in E. rewrite length_map in E.
    assert (In s (List.filter (fun s => stocks s (GroceryItem.name x)) available))
      as Hin by (apply filter_In; auto).
    destruct (List.filter _ available); [destruct Hin | discriminate].
  - exists m. split; [reflexivity|]. intros s Hs Hst.
    rewrite List.Forall_forall in Hm. apply Hm.
    apply in_map_iff. exists s. split; [reflexivity|]. apply filter_In. auto.
Qed.

Lemma last_named_unique groceryList x :
  NoDup (map GroceryItem.name groceryList) -> In x groceryList ->
  last_named (GroceryItem.name x) groceryList = Some x.
Proof.
  intros Hnd Hx. destruct (last_named_is_Some groceryList x Hx) as [y Hy].
  rewrite Hy. f_equal. apply last_named_In in Hy as [Hin Hn].
  clear -Hnd Hx Hin Hn. induction groceryList as [|z l IH]; [destruct Hx|].
  simpl in Hnd. inversion Hnd as [|? ? Hz Hl]; subst.
  destruct Hx as [->|Hx], Hin as [->|Hin]; auto.
  - exfalso. apply Hz, list_elem_of_In. rewrite <- Hn. apply in_map, Hin.
  - exfalso. apply Hz, list_elem_of_In. rewrite Hn. apply in_map, Hx.
Qed.

Lemma assign_Some maps storeItemMap totalCost x o :
  cheapest maps x = Some o ->
  assign maps (storeItemMap, totalCost) x
  = (bought storeItemMap x o, totalCost + Offer.price o).
Proof. intros H. unfold assign. rewrite H. reflexivity. Qed.

Lemma savings_bound stores groceryList radius maxStores r t :
  NoDup (map GroceryItem.name groceryList) ->
  Forall
    (fun x =>
       fulfillable (availableStores stores radius) x = true
       /\ (0 <= GroceryItem.quantity x)%Z)
    groceryList ->
  optimize stores groceryList radius maxStores = Routed r t ->
  exists baseline,
    expensiveStoreCost (availableStores stores radius) groceryList = Fin baseline
    /\ ShoppingRoute.savings r = Fin (baseline + - ShoppingRoute.totalCost r)
    /\ ShoppingRoute.totalCost r <= baseline.
Proof.
  intros Hnd Hall H. apply optimize_Routed in H as (_ & _ & _ & Hc & _ & Hs & _).
  set (available := availableStores stores radius) in *.
  unfold greedy in Hc, Hs. unfold expensiveStoreCost in *.
  set (maps := itemStoreMaps Array_sort available groceryList) in *.
  assert (forall l a m c,
             (forall x, In x l -> In x groceryList) ->
             exists b,
               fold_left
                 (fun sum x =>
                    num_add sum
                      (num_mul (maxPrice available x)
                         (Fin (inject_Z (GroceryItem.quantity x)))))
                 l (Fin a) = Fin b
               /\ snd (fold_left (assign maps) l (m, c)) - c <= b - a) as Hfold.
  { induction l as [|x l IH]; intros a m c Hl.
    - exists a. split; [reflexivity|]. simpl. lra.
    - assert (In x groceryList) as Hx by (apply Hl; left; reflexivity).
      rewrite List.Forall_forall in Hall. destruct (Hall x Hx) as [Hf Hq].
      destruct (maxPrice_finite available x Hf) as (mx & Hmx & Hle).
      apply (assigned_iff_fulfillable available groceryList x Hx) in Hf as Ho.
      destruct Ho as [o Ho]. fold maps in Ho.
      apply cheapest_from_last in Ho as Hfrom.
      destruct Hfrom as (last & Hlast & Hin).
      rewrite (last_named_unique groceryList x Hnd Hx) in Hlast.
      injection Hlast as <-.
      apply offers_In in Hin as (Hav & Hst & Hprice).
      cbn [fold_left]. rewrite (assign_Some maps m c x o Ho), Hmx.
      cbn [num_mul num_add].
      destruct (IH (a + mx * inject_Z (GroceryItem.quantity x))
                  (bought m x o) (c + Offer.price o)) as (b & Hb & Hbound).
      { intros y Hy. apply Hl. right. exact Hy. }
      exists b. split; [exact Hb|].
      assert (Offer.price o <= mx * inject_Z (GroceryItem.quantity x)) as Hp.
      { rewrite Hprice. simpl.
        apply Qmult_le_compat_r; [apply Hle; assumption|].
        change 0 with (inject_Z 0). rewrite <- Zle_Qle. exact Hq. }
      lra. }
  destruct (Hfold groceryList 0 JsObject.empty 0 ltac:(auto)) as (b & Hb & Hbound).
  exists b. split; [exact Hb|]. rewrite Hs, Hb, Hc.
  split; [reflexivity|]. lra.
Qed.

Lemma sampleStores_stock s name :
  In s sampleStores -> stocks s name = true ->
  In name ["milk"; "bread"; "eggs"; "apples"].
Proof.
  unfold stocks. intros Hs H.
  destruct (Store.items s !! name) as [entry|] eqn:E; [|discriminate].
  destruct Hs as [<-|[<-|[<-|[]]]]; cbn [Store.items] in E;
    apply elem_of_list_to_map_2 in E; apply list_elem_of_In in E; simpl in E;
    repeat (destruct E as [E|E]; [injection E as <- _; simpl; tauto|]);
    destruct E.
Qed.

Lemma fulfillable_on_sampleStores radius x :
  fulfillable (availableStores sampleStores radius) x = true ->
  In (GroceryItem.name x) ["milk"; "bread"; "eggs"; "apples"].
Proof.
  unfold fulfillable. intros H. apply existsb_exists in H as (s & Hs & Hst).
  apply availableStores_In in Hs as [Hs _].
  exact (sampleStores_stock s (GroceryItem.name x) Hs Hst).
Qed.

(** X7: on the stores the component ships with, when the names of the list
    are pairwise distinct, every entry is stocked by some store within the
    radius and every quantity is between 0 and [Number.MAX_SAFE_INTEGER],
    the list has at most four entries, the baseline is a finite number,
    [savings] is the baseline minus [totalCost], and [totalCost] does not
    exceed the baseline. *)
Theorem savings_not_negative groceryList radius maxStores r t :
  NoDup (map GroceryItem.name groceryList) ->
  Forall
    (fun x =>
       fulfillable (availableStores sampleStores radius) x = true
       /\ (0 <= GroceryItem.quantity x <= MAX_SAFE_INTEGER)%Z)
    groceryList ->
  optimizeRoute groceryList radius maxStores = Routed r t ->
  (length groceryList <= 4)%nat
  /\ exists baseline,
       expensiveStoreCost (availableStores sampleStores radius) groceryList
       = Fin baseline
       /\ ShoppingRoute.savings r = Fin (baseline + - ShoppingRoute.totalCost r)
       /\ ShoppingRoute.totalCost r <= baseline.
Proof.
  intros Hnd Hall H. split.
  - rewrite <- (length_map GroceryItem.name).
    change 4%nat with (length ["milk"; "bread"; "eggs"; "apples"]).
    apply NoDup_incl_length.
    + clear -Hnd. induction Hnd as [|n l Hn _ IH]; constructor.
      * rewrite <- list_elem_of_In. exact Hn.
      * exact IH.
    + intros n Hn. apply in_map_iff in Hn as (x & <- & Hx).
      rewrite List.Forall_forall in Hall. destruct (Hall x Hx) as [Hf _].
      apply (fulfillable_on_sampleStores radius x Hf).
  - apply (savings_bound sampleStores groceryList radius maxStores r t Hnd);
      [|exact H].
    apply (List.Forall_impl _ (P := fun x =>
             fulfillable (availableStores sampleStores radius) x = true
             /\ (0 <= GroceryItem.quantity x <= MAX_SAFE_INTEGER)%Z));
      [|exact Hall].
    intros x [Hf Hq]. split; [exact Hf | lia].
Qed.

Lemma savings_not_negative_witness :
  exists r t baseline,
    optimizeRoute [item "milk" 1; item "eggs" 2] 5 1 = Routed r t
    /\ ShoppingRoute.savings r = Fin (baseline + - ShoppingRoute.totalCost r)
    /\ ShoppingRoute.totalCost r <= baseline.
Proof.
  destruct (savings_not_negative [item "milk" 1; item "eggs" 2]
              5 1 _ _
              ltac:(apply (bool_decide_unpack _); vm_compute; exact I)
              ltac:(repeat constructor; vm_compute; discriminate)
              ltac:(vm_compute; reflexivity)) as (_ & baseline & _ & Hs & Hle).
  eexists _, _, baseline. split; [vm_compute; reflexivity|].
  split; [exact Hs | exact Hle].
Defined.

(** ** Entries of the same name *)

Section ObjectLookup.
Context {V : Type}.
Implicit Types (o : JsObject.t V) (k : string) (v : V).

Lemma get_set o k v k' :
  JsObject.get (JsObject.set o k v) k'
  = if String.eqb k k' then Some v else JsObject.get o k'.
Proof.
  induction o as [|[k0 v0] o IH]; simpl; [reflexivity|].
  destruct (String.eqb_spec k0 k) as [->|Hne]; simpl.
  - destruct (String.eqb k k'); reflexivity.
  - rewrite IH. destruct (String.eqb_spec k0 k') as [->|Hne'];
      destruct (String.eqb_spec k k') as [->|Hne'']; congruence.
Qed.

Lemma get_update o k (f : V -> V) k' :
  JsObject.get (JsObject.update o k f) k'
  = if String.eqb k k' then f <$> JsObject.get o k' else JsObject.get o k'.
Proof.
  induction o as [|[k0 v0] o IH]; simpl.
  - destruct (String.eqb k k'); reflexivity.
  - destruct (String.eqb_spec k0 k) as [->|Hne]; simpl.
    + destruct (String.eqb k k'); reflexivity.
    + rewrite IH. destruct (String.eqb_spec k0 k') as [->|Hne'];
        destruct (String.eqb_spec k k') as [->|Hne'']; congruence.
Qed.

End ObjectLookup.

(** The bucket of the store after an entry is bought there, and the other
    buckets. *)
Lemma get_bought storeItemMap x o k :
  JsObject.get (bought storeItemMap x o) k
  = if String.eqb (Store.id (Offer.store o)) k
    then
      let prior :=
        match JsObject.get storeItemMap (Store.id (Offer.store o)) with
        | Some b => b
        | None => Bucket.mk (Offer.store o) [] 0
        end in
      Some (Bucket.mk (Bucket.store prior) (Bucket.items prior ++ [label x])
              (Bucket.cost prior + Offer.price o))
    else JsObject.get storeItemMap k.
Proof.
  unfold bought. rewrite get_update.
  destruct (String.eqb_spec (Store.id (Offer.store o)) k) as [<-|Hne].
  - destruct (JsObject.get storeItemMap (Store.id (Offer.store o))) as [b|] eqn:G.
    + rewrite G. reflexivity.
    + rewrite get_set, String.eqb_refl. reflexivity.
  - destruct (JsObject.get storeItemMap (Store.id (Offer.store o))); [reflexivity|].
    rewrite get_set. apply String.eqb_neq in Hne. rewrite Hne. reflexivity.
Qed.




(** ** What is added up, and where *)

Lemma taken_cons maps x l :
  taken maps (x :: l)
  = match cheapest maps x with
    | Some o => o :: taken maps l
    | None => taken maps l
    end.
Proof. unfold taken. simpl. destruct (cheapest maps x); reflexivity. Qed.

Lemma assign_None maps acc x : cheapest maps x = None -> assign maps acc x = acc.
Proof. intros H. destruct acc as [m c]. unfold assign. rewrite H. reflexivity. Qed.

Lemma greedy_total maps l :
  forall storeItemMap totalCost,
    snd (fold_left (assign maps) l (storeItemMap, totalCost))
    = added (taken maps l) totalCost.
Proof.
  induction l as [|x l IH]; intros m c; [reflexivity|].
  cbn [fold_left]. rewrite taken_cons.
  destruct (cheapest maps x) as [o|] eqn:E.
  - rewrite (assign_Some maps m c x o E), IH. reflexivity.
  - rewrite (assign_None maps (m, c) x E), IH. reflexivity.
Qed.

Lemma greedy_bucket_kept maps l :
  forall storeItemMap totalCost k,
    is_Some (JsObject.get storeItemMap k) ->
    is_Some (JsObject.get (fst (fold_left (assign maps) l (storeItemMap, totalCost))) k).
Proof.
  induction l as [|x l IH]; intros m c k Hk; [exact Hk|].
  cbn [fold_left]. destruct (cheapest maps x) as [o|] eqn:E.
  - rewrite (assign_Some maps m c x o E). apply IH. rewrite get_bought.
    destruct (String.eqb _ k); [eexists; reflexivity | exact Hk].
  - rewrite (assign_None maps (m, c) x E). apply IH, Hk.
Qed.

Lemma greedy_bucket_exists maps l :
  forall storeItemMap totalCost o,
    In o (taken maps l) ->
    is_Some
      (JsObject.get (fst (fold_left (assign maps) l (storeItemMap, totalCost)))
         (Store.id (Offer.store o))).
Proof.
  induction l as [|x l IH]; intros m c o Ho; [destruct Ho|].
  rewrite taken_cons in Ho. cbn [fold_left].
  destruct (cheapest maps x) as [o'|] eqn:E.
  - rewrite (assign_Some maps m c x o' E). destruct Ho as [->|Ho].
    + apply greedy_bucket_kept. rewrite get_bought, String.eqb_refl.
      eexists; reflexivity.
    + apply IH, Ho.
  - rewrite (assign_None maps (m, c) x E). apply IH, Ho.
Qed.

Lemma greedy_bucket_cost maps l :
  forall storeItemMap totalCost k b,
    JsObject.get (fst (fold_left (assign maps) l (storeItemMap, totalCost))) k
    = Some b ->
    Bucket.cost b
    = added (taken_at maps l k)
        (match JsObject.get storeItemMap k with
         | Some prior => Bucket.cost prior
         | None => 0
         end)
    /\ (JsObject.get storeItemMap k = None -> taken_at maps l k <> []).
Proof.
  unfold taken_at.
  induction l as [|x l IH]; intros m c k b Hb.
  - simpl in Hb. rewrite Hb. split; [reflexivity | congruence].
  - cbn [fold_left] in Hb. rewrite taken_cons.
    destruct (cheapest maps x) as [o|] eqn:E.
    + rewrite (assign_Some maps m c x o E) in Hb.
      apply IH in Hb as [Hcost Hnew]. rewrite get_bought in Hcost, Hnew.
      cbn [List.filter].
      destruct (String.eqb_spec (Store.id (Offer.store o)) k) as [->|Hne].
      * split; [|discriminate]. rewrite Hcost. cbn [added fold_left].
        destruct (JsObject.get m k); reflexivity.
      * split; [exact Hcost | exact Hnew].
    + rewrite (assign_None maps (m, c) x E) in Hb. apply IH in Hb. exact Hb.
Qed.

(** X1: [totalCost] is the line costs of the options taken, added up in the
    order of the list, whatever [maxStores] is.  Every option taken has a
    bucket at its store, and the cost of a bucket is the line costs of the
    options taken at that store, added up in the same order; no bucket is
    empty.  The route keeps the first buckets of the visit order; when at
    most [maxStores] stores received an item none is dropped. *)
Theorem totalCost_and_bucket_costs stores groceryList radius maxStores r t :
  optimize stores groceryList radius maxStores = Routed r t ->
  let available := availableStores stores radius in
  let maps := itemStoreMaps Array_sort available groceryList in
  let storeItemMap := fst (greedy Array_sort available groceryList) in
  let kept := routeStores Array_sort storeItemMap maxStores in
  ShoppingRoute.totalCost r = added (taken maps groceryList) 0
  /\ (forall o, In o (taken maps groceryList) ->
        is_Some (JsObject.get storeItemMap (Store.id (Offer.store o))))
  /\ (forall id b, JsObject.get storeItemMap id = Some b ->
        taken_at maps groceryList id <> []
        /\ Bucket.cost b = added (taken_at maps groceryList id) 0)
  /\ exists dropped,
       visitOrder Array_sort storeItemMap = kept ++ dropped
       /\ ShoppingRoute.stores r = map Bucket.store kept
       /\ ((Z.of_nat (length storeItemMap) <= maxStores)%Z -> dropped = []).
Proof.
  intros H. apply optimize_Routed in H as (_ & _ & Hs & Hc & _).
  cbv zeta. set (available := availableStores stores radius) in *.
  split; [rewrite Hc; apply greedy_total|].
  split; [intros o Ho; apply greedy_bucket_exists, Ho|].
  split.
  - intros id b Hb. apply greedy_bucket_cost in Hb as [Hcost Hnew].
    split; [apply Hnew; reflexivity | exact Hcost].
  - unfold routeStores in *.
    set (m := fst (greedy Array_sort available groceryList)) in *.
    destruct (slice0_take (visitOrder Array_sort m) maxStores) as (k & Hk & Hall).
    exists (drop k (visitOrder Array_sort m)). rewrite Hk in *.
    split; [symmetry; apply take_drop|]. split; [exact Hs|].
    intros Hle. apply drop_ge. apply Hall.
    unfold visitOrder. rewrite Array_sort_length, values_length. lia.
Qed.

Lemma totalCost_and_bucket_costs_witness :
  exists r t kept dropped,
    optimizeRoute [item "milk" 1; item "eggs" 1] 5 1 = Routed r t
    /\ ShoppingRoute.totalCost r = 0 + 3.49 * 1 + 3.89 * 1
    /\ map (fun b => (Store.id (Bucket.store b), Bucket.cost b)) kept
       = [("2", 0 + 3.89 * 1)]
    /\ map (fun b => (Store.id (Bucket.store b), Bucket.cost b)) dropped
       = [("3", 0 + 3.49 * 1)]
    /\ ShoppingRoute.stores r = map Bucket.store kept.
Proof.
  destruct (totalCost_and_bucket_costs sampleStores
              [item "milk" 1; item "eggs" 1] 5 1 _ _
              ltac:(vm_compute; reflexivity))
    as (Hc & _ & _ & dropped & Hv & Hs & _).
  eexists _, _, _, dropped. split; [vm_compute; reflexivity|].
  split; [exact Hc|].
  split; [|split; [|exact Hs]].
  - vm_compute. reflexivity.
  - vm_compute in Hv. injection Hv as <-. vm_compute. reflexivity.
Defined.

(** ** Order of the list *)

Lemma last_named_perm name list1 list2 :
  NoDup (map GroceryItem.name list1) -> Permutation list1 list2 ->
  last_named name list1 = last_named name list2.
Proof.
  intros Hnd Hperm.
  assert (NoDup (map GroceryItem.name list2)) as Hnd2
    by (rewrite <- Hperm; exact Hnd).
  destruct (last_named name list1) as [x|] eqn:E1.
  - apply last_named_In in E1 as [Hx <-]. symmetry.
    apply last_named_unique; [exact Hnd2|].
    apply Permutation_in with list1; assumption.
  - destruct (last_named name list2) as [y|] eqn:E2; [|reflexivity].
    apply last_named_In in E2 as [Hy <-].
    rewrite last_named_unique in E1; [discriminate | exact Hnd|].
    apply Permutation_in with list2; [symmetry; exact Hperm | exact Hy].
Qed.

(** X8: when the names of the list are pairwise distinct, reordering the
    list changes neither the option list kept for a name nor, for any entry,
    the store it is bought at and the line cost charged for it. *)
Theorem options_order_independent available list1 list2 :
  NoDup (map GroceryItem.name list1) ->
  Permutation list1 list2 ->
  itemStoreMaps Array_sort available list1 = itemStoreMaps Array_sort available list2
  /\ forall x,
       cheapest (itemStoreMaps Array_sort available list1) x
       = cheapest (itemStoreMaps Array_sort available list2) x.
Proof.
  intros Hnd Hperm.
  assert (itemStoreMaps Array_sort available list1
          = itemStoreMaps Array_sort available list2) as Hmaps.
  { apply map_eq. intros name. rewrite !itemStoreMaps_lookup.
    rewrite (last_named_perm name list1 list2 Hnd Hperm). reflexivity. }
  split; [exact Hmaps|]. intros x. rewrite Hmaps. reflexivity.
Qed.

Lemma options_order_independent_witness :
  let list1 := [item "milk" 1; item "eggs" 2; item "bread" 3] in
  let list2 := [item "bread" 3; item "milk" 1; item "eggs" 2] in
  itemStoreMaps Array_sort sampleStores list1
  = itemStoreMaps Array_sort sampleStores list2
  /\ forall x,
       cheapest (itemStoreMaps Array_sort sampleStores list1) x
       = cheapest (itemStoreMaps Array_sort sampleStores list2) x.
Proof.
  apply (options_order_independent sampleStores
           [item "milk" 1; item "eggs" 2; item "bread" 3]
           [item "bread" 3; item "milk" 1; item "eggs" 2]).
  - apply (bool_decide_unpack _). vm_compute. exact I.
  - symmetry.
    apply (Permutation_cons_append [item "milk" 1; item "eggs" 2]
             (item "bread" 3)).
Defined.

(** * The mock plan of [optimizeShoppingRoute] *)

Lemma ceil_half_bounds n :
  (Nat.div n 2 <= ceil_half n <= n)%nat
  /\ (n - ceil_half n = Nat.div n 2)%nat
  /\ (ceil_half n <= Nat.div n 2 + 1)%nat.
Proof.
  unfold ceil_half.
  pose proof (Nat.div_mod_eq n 2) as H1.
  pose proof (Nat.div_mod_eq (n + 1) 2) as H2.
  pose proof (Nat.mod_upper_bound n 2 ltac:(lia)) as H3.
  pose proof (Nat.mod_upper_bound (n + 1) 2 ltac:(lia)) as H4.
  lia.
Qed.

(** X9: when the two store names the mock plan uses differ, the plan has
    exactly these two stores, the first with the first [ceil(n/2)] items and
    the second with the rest: every item is planned once, in list order, and
    the first store gets at most one item more than the second. *)
Theorem mock_plan_splits_items random items stores :
  store_or stores 0 "Walmart" <> store_or stores 1 "Target" ->
  let plan := OptimizedRoute.Plan (optimizeShoppingRoute None random items stores) in
  let half := ceil_half (length items) in
  plan = [ (store_or stores 0 "Walmart", take half items);
           (store_or stores 1 "Target", drop half items) ]
  /\ concat (map snd plan) = items
  /\ (length (drop half items) <= length (take half items)
      <= length (drop half items) + 1)%nat.
Proof.
  intros Hne. cbv zeta. unfold optimizeShoppingRoute, mockOptimization.
  cbn [OptimizedRoute.Plan JsObject.set JsObject.empty].
  destruct (String.eqb_spec (store_or stores 0 "Walmart")
              (store_or stores 1 "Target")) as [E|_]; [contradiction|].
  split; [reflexivity|]. cbn [map snd concat]. rewrite app_nil_r, take_drop.
  split; [reflexivity|].
  rewrite length_take, length_drop.
  pose proof (ceil_half_bounds (length items)). lia.
Qed.

Lemma mock_plan_splits_items_witness :
  OptimizedRoute.Plan
    (optimizeShoppingRoute None (1 # 3) ["milk"; "eggs"; "bread"] ["Kroger"])
  = [ ("Kroger", ["milk"; "eggs"]); ("Target", ["bread"]) ].
Proof.
  apply (mock_plan_splits_items (1 # 3) ["milk"; "eggs"; "bread"] ["Kroger"]).
  vm_compute. discriminate.
Defined.

(** X10: when the two store names coincide (one selected store called
    "Target", or the same name selected twice), the second entry overwrites
    the first: the plan has one store with the last [floor(n/2)] items, and
    the first [ceil(n/2)] items are in no store's list. *)
Theorem mock_plan_one_store random items stores :
  store_or stores 0 "Walmart" = store_or stores 1 "Target" ->
  let plan := OptimizedRoute.Plan (optimizeShoppingRoute None random items stores) in
  plan = [ (store_or stores 1 "Target", drop (ceil_half (length items)) items) ]
  /\ items = take (ceil_half (length items)) items ++ concat (map snd plan)
  /\ length (concat (map snd plan)) = Nat.div (length items) 2.
Proof.
  intros E. cbv zeta. unfold optimizeShoppingRoute, mockOptimization.
  cbn [OptimizedRoute.Plan JsObject.set JsObject.empty].
  rewrite E, String.eqb_refl.
  split; [reflexivity|]. cbn [map snd concat]. rewrite app_nil_r, take_drop.
  split; [reflexivity|].
  rewrite length_drop. apply ceil_half_bounds.
Qed.

Lemma mock_plan_one_store_witness :
  OptimizedRoute.Plan
    (optimizeShoppingRoute None (1 # 3) ["milk"; "eggs"; "bread"] ["Target"])
  = [ ("Target", ["bread"]) ].
Proof.
  apply (mock_plan_one_store (1 # 3) ["milk"; "eggs"; "bread"] ["Target"]).
  reflexivity.
Defined.

(** X11: for a draw of [Math.random] in [0, 1) the mock [Cost] is at least
    25 and at most 75, whatever the items and stores are. *)
Theorem mock_cost_range random items stores :
  0 <= random -> random < 1 ->
  25 <= OptimizedRoute.Cost (optimizeShoppingRoute None random items stores)
  /\ OptimizedRoute.Cost (optimizeShoppingRoute None random items stores) <= 75.
Proof. intros H0 H1. simpl. lra. Qed.

Lemma mock_cost_range_witness :
  25 <= OptimizedRoute.Cost (optimizeShoppingRoute None (1 # 2) ["milk"] [])
  /\ OptimizedRoute.Cost (optimizeShoppingRoute None (1 # 2) ["milk"] []) <= 75.
Proof. apply mock_cost_range; vm_compute; [discriminate | reflexivity]. Defined.

(** * The store-selection component

    ** [trim] *)

Lemma trimStart_fixed c s :
  is_space c = false -> trimStart (String c s) = String c s.
Proof. intros H. simpl. rewrite H. reflexivity. Qed.

Lemma trimStart_head s :
  trimStart s = EmptyString
  \/ exists c s', trimStart s = String c s' /\ is_space c = false.
Proof.
  induction s as [|c s IH]; simpl; [left; reflexivity|].
  destruct (is_space c) eqn:E; [exact IH|]. right. eauto.
Qed.

Lemma trimEnd_head c s :
  is_space c = false -> trimEnd (String c s) = String c (trimEnd s).
Proof. intros H. simpl. rewrite H. destruct (trimEnd s); reflexivity. Qed.

Lemma trimEnd_cons c s d t :
  trimEnd s = String d t -> trimEnd (String c s) = String c (String d t).
Proof. intros H. simpl. rewrite H. reflexivity. Qed.

Lemma trimEnd_idempotent s : trimEnd (trimEnd s) = trimEnd s.
Proof.
  induction s as [|c s IH]; [reflexivity|].
  simpl. destruct (trimEnd s) as [|d t] eqn:E.
  - destruct (is_space c) eqn:Ec; [reflexivity|]. simpl. rewrite Ec. reflexivity.
  - apply trimEnd_cons, IH.
Qed.

Lemma trim_idempotent s : trim (trim s) = trim s.
Proof.
  unfold trim. destruct (trimStart_head s) as [->|(c & s' & -> & Hc)];
    [reflexivity|].
  rewrite (trimEnd_head c s' Hc), (trimStart_fixed c _ Hc), <- (trimEnd_head c s' Hc).
  apply trimEnd_idempotent.
Qed.

Lemma includes_In xs x : includes xs x = true <-> In x xs.
Proof.
  unfold includes. rewrite existsb_exists. split.
  - intros (y & Hy & E). apply String.eqb_eq in E. subst. exact Hy.
  - intros H. exists x. split; [exact H | apply String.eqb_refl].
Qed.

Lemma filter_index_delete {A : Type} (xs : list A) index :
  filter_index xs index = take index xs ++ drop (S index) xs.
Proof.
  revert index. induction xs as [|x xs IH]; intros [|i]; simpl;
    try reflexivity.
  rewrite IH. reflexivity.
Qed.

(** ** The list of item names *)

(** X12: [addItem] appends the trimmed name exactly when it is not blank and
    not yet in the list, and otherwise changes nothing and shows no toast; so
    a list without duplicates, of non-empty trimmed names, stays one. *)
Theorem addItem_keeps_names_clean (st : BasketRouteApp.State) :
  clean_names (BasketRouteApp.items st) ->
  let name := trim (BasketRouteApp.newItemName st) in
  let st' := fst (BasketRouteApp.addItem st) in
  clean_names (BasketRouteApp.items st')
  /\ (name <> EmptyString /\ ~ In name (BasketRouteApp.items st) ->
      BasketRouteApp.items st' = BasketRouteApp.items st ++ [name]
      /\ BasketRouteApp.newItemName st' = EmptyString)
  /\ (name = EmptyString \/ In name (BasketRouteApp.items st) ->
      BasketRouteApp.addItem st = (st, [])).
Proof.
  intros [Hnd Hall]. cbv zeta. unfold BasketRouteApp.addItem.
  set (name := trim (BasketRouteApp.newItemName st)).
  destruct (String.eqb_spec name EmptyString) as [E|E]; simpl.
  - split; [split; assumption|]. split; [tauto | reflexivity].
  - destruct (includes (BasketRouteApp.items st) name) eqn:I; simpl.
    + apply includes_In in I. split; [split; assumption|].
      split; [tauto | reflexivity].
    + assert (~ In name (BasketRouteApp.items st)) as Hnew.
      { intros H. apply includes_In in H. congruence. }
      split; [|split; [auto | tauto]].
      split.
      * apply NoDup_app. split; [exact Hnd|]. split; [|apply NoDup_singleton].
        intros x Hx Hx'. apply list_elem_of_In in Hx, Hx'.
        destruct Hx' as [<-|[]]. contradiction.
      * apply Forall_app. split; [exact Hall|].
        constructor; [|constructor]. split; [exact E | apply trim_idempotent].
Qed.

Lemma addItem_keeps_names_clean_witness :
  BasketRouteApp.items
    (fst (BasketRouteApp.addItem
            (BasketRouteApp.mk ["milk"; "eggs"] "  bread " None false [])))
  = ["milk"; "eggs"; "bread"]
  /\ clean_names ["milk"; "eggs"; "bread"].
Proof.
  pose proof (addItem_keeps_names_clean
                (BasketRouteApp.mk ["milk"; "eggs"] "  bread " None false [])) as H.
  split; [reflexivity|]. apply H.
  split; [apply (bool_decide_unpack _); vm_compute; exact I|].
  repeat constructor; discriminate.
Defined.

(** X13: [removeItem] deletes the entry at the index and keeps the others in
    order; for an index past the end the list is unchanged, yet the toast
    still announces that "undefined" was removed. *)
Theorem removeItem_by_index (st : BasketRouteApp.State) (index : nat) :
  let '(st', toasts) := BasketRouteApp.removeItem st index in
  BasketRouteApp.items st'
  = take index (BasketRouteApp.items st) ++ drop (S index) (BasketRouteApp.items st)
  /\ (forall name, BasketRouteApp.items st !! index = Some name ->
        length (BasketRouteApp.items st') = pred (length (BasketRouteApp.items st))
        /\ map Toast.description toasts = [name +:+ " removed from your list"])
  /\ ((length (BasketRouteApp.items st) <= index)%nat ->
      BasketRouteApp.items st' = BasketRouteApp.items st
      /\ map Toast.description toasts = ["undefined removed from your list"])
  /\ (clean_names (BasketRouteApp.items st) -> clean_names (BasketRouteApp.items st')).
Proof.
  unfold BasketRouteApp.removeItem. simpl. rewrite filter_index_delete.
  split; [reflexivity|]. split; [|split].
  - intros name Hname. rewrite Hname. split; [|reflexivity].
    apply lookup_lt_Some in Hname.
    rewrite length_app, length_take, length_drop. lia.
  - intros Hle. rewrite (lookup_ge_None_2 _ _ Hle).
    rewrite take_ge, drop_ge, app_nil_r by lia. split; reflexivity.
  - intros [Hnd Hall].
    rewrite <- (take_drop index (BasketRouteApp.items st)) in Hnd, Hall.
    rewrite <- (take_drop 1 (drop index (BasketRouteApp.items st))) in Hnd, Hall.
    rewrite drop_drop in Hnd, Hall.
    replace (index + 1)%nat with (S index) in Hnd, Hall by lia.
    apply NoDup_app in Hnd as (H1 & H2 & H3).
    apply NoDup_app in H3 as (_ & _ & H3).
    rewrite !Forall_app in Hall. destruct Hall as (A1 & _ & A3).
    split.
    + apply NoDup_app. split; [exact H1|]. split; [|exact H3].
      intros x Hx Hx'. apply (H2 x Hx). apply elem_of_app. right. exact Hx'.
    + apply Forall_app. split; assumption.
Qed.

(** ** The selected stores *)

(** X14: unchecking a store removes every occurrence of its name and leaves
    the other names in order; checking appends the name; checking and then
    unchecking a store that was not selected gives back the selection. *)
Theorem store_selection_round_trip (st : BasketRouteApp.State) (storeName : string) :
  let checked := BasketRouteApp.handleStoreSelection st storeName true in
  let unchecked := BasketRouteApp.handleStoreSelection st storeName false in
  In storeName (BasketRouteApp.selectedStores checked)
  /\ ~ In storeName (BasketRouteApp.selectedStores unchecked)
  /\ (forall other, other <> storeName ->
        In other (BasketRouteApp.selectedStores unchecked)
        <-> In other (BasketRouteApp.selectedStores st))
  /\ (~ In storeName (BasketRouteApp.selectedStores st) ->
      BasketRouteApp.handleStoreSelection checked storeName false = st).
Proof.
  cbv zeta. unfold BasketRouteApp.handleStoreSelection. simpl.
  split; [apply in_or_app; right; left; reflexivity|].
  split.
  { intros H. apply filter_In in H as [_ H]. rewrite String.eqb_refl in H.
    discriminate. }
  split.
  { intros other Hne. rewrite filter_In. split; [tauto|].
    intros H. split; [exact H|]. apply negb_true_iff, String.eqb_neq. exact Hne. }
  intros Hnew. destruct st as [its nm route opt sel]. simpl in *. f_equal.
  rewrite List.filter_app. simpl. rewrite String.eqb_refl. simpl.
  rewrite app_nil_r. induction sel as [|s sel IH]; [reflexivity|].
  simpl in *. destruct (String.eqb_spec s storeName) as [->|Hs]; [tauto|].
  simpl. rewrite IH by tauto. reflexivity.
Qed.

(** X15: with the service down, a list that is not empty and exactly one
    selected store (not named "Target"), the route that is set sends the
    second half of the list to "Target", a store that is not selected. *)
Theorem single_selection_plans_Target toFixed2 random (st : BasketRouteApp.State) s :
  BasketRouteApp.items st <> [] ->
  BasketRouteApp.selectedStores st = [s] ->
  s <> EmptyString -> s <> "Target" ->
  let half := ceil_half (length (BasketRouteApp.items st)) in
  exists st' toasts route,
    BasketRouteApp.optimizeRoute toFixed2 None random st = (st', toasts)
    /\ BasketRouteApp.optimizedRoute st' = Some route
    /\ OptimizedRoute.Plan route
       = [ (s, take half (BasketRouteApp.items st));
           ("Target", drop half (BasketRouteApp.items st)) ]
    /\ ~ In "Target" (BasketRouteApp.selectedStores st')
    /\ BasketRouteApp.isOptimizing st' = false.
Proof.
  intros Hitems Hsel Hs Ht. cbv zeta. unfold BasketRouteApp.optimizeRoute.
  destruct (BasketRouteApp.items st) as [|x xs] eqn:E; [congruence|].
  rewrite Hsel. eexists _, _, _. split; [reflexivity|].
  split; [reflexivity|]. simpl BasketRouteApp.selectedStores.
  split; [|split; [|reflexivity]].
  - assert (store_or [s] 0 "Walmart" = s) as H0
      by (destruct s; [congruence | reflexivity]).
    assert (store_or [s] 1 "Target" = "Target") as H1 by reflexivity.
    unfold optimizeShoppingRoute, mockOptimization.
    cbn [OptimizedRoute.Plan JsObject.set JsObject.empty].
    rewrite H0, H1.
    destruct (String.eqb_spec s "Target") as [->|_]; [congruence | reflexivity].
  - intros [H|[]]. congruence.
Qed.

Lemma single_selection_plans_Target_witness :
  exists st' toasts route,
    BasketRouteApp.optimizeRoute (fun _ => "0.00") None (1 # 4)
      (BasketRouteApp.mk ["milk"; "eggs"; "bread"] EmptyString None false ["Kroger"])
    = (st', toasts)
    /\ BasketRouteApp.optimizedRoute st' = Some route
    /\ OptimizedRoute.Plan route
       = [ ("Kroger", ["milk"; "eggs"]); ("Target", ["bread"]) ].
Proof.
  destruct (single_selection_plans_Target (fun _ => "0.00") (1 # 4)
              (BasketRouteApp.mk ["milk"; "eggs"; "bread"] EmptyString None
                 false ["Kroger"]) "Kroger"
              ltac:(discriminate) ltac:(reflexivity)
              ltac:(discriminate) ltac:(discriminate))
    as (st' & toasts & route & H1 & H2 & H3 & _).
  exists st', toasts, route. auto.
Defined.

(** * The shopping component around [optimizeRoute] *)

(** X16: [removeItem] takes out every entry with the given id and keeps the
    others in order; removing the entry [addItem] just added gives back the
    list, provided no older entry has the same [Date.now()] id (an older
    entry with that id is removed as well). *)
Theorem removeItem_after_addItem now (st : SmartGroceryApp.State) :
  trim (SmartGroceryApp.NewItem.name (SmartGroceryApp.newItem st)) <> EmptyString ->
  let added := fst (SmartGroceryApp.addItem now st) in
  let removed := SmartGroceryApp.removeItem added (pretty now) in
  length (SmartGroceryApp.groceryList added)
  = S (length (SmartGroceryApp.groceryList st))
  /\ Forall (fun x => GroceryItem.id x <> pretty now)
       (SmartGroceryApp.groceryList removed)
  /\ SmartGroceryApp.groceryList removed
     = List.filter (fun x => negb (String.eqb (GroceryItem.id x) (pretty now)))
         (SmartGroceryApp.groceryList st)
  /\ (Forall (fun x => GroceryItem.id x <> pretty now)
        (SmartGroceryApp.groceryList st) ->
      SmartGroceryApp.groceryList removed = SmartGroceryApp.groceryList st).
Proof.
  intros Hname. cbv zeta. unfold SmartGroceryApp.addItem.
  destruct (String.eqb_spec
              (trim (SmartGroceryApp.NewItem.name (SmartGroceryApp.newItem st)))
              EmptyString) as [E|_]; [contradiction|].
  simpl. rewrite length_app, List.filter_app. simpl.
  rewrite String.eqb_refl. simpl. rewrite app_nil_r.
  split; [lia|]. split; [|split; [reflexivity|]].
  - apply List.Forall_forall. intros x Hx. apply filter_In in Hx as [_ Hx].
    apply negb_true_iff, String.eqb_neq in Hx. exact Hx.
  - intros Hfresh. induction Hfresh as [|x l Hx _ IH]; [reflexivity|].
    simpl. apply String.eqb_neq in Hx. rewrite Hx. simpl. rewrite IH.
    reflexivity.
Qed.

Lemma removeItem_after_addItem_witness :
  SmartGroceryApp.groceryList
    (SmartGroceryApp.removeItem
       (fst (SmartGroceryApp.addItem 1700000000000
               (SmartGroceryApp.mk [item "milk" 1]
                  (SmartGroceryApp.NewItem.mk "Eggs" 2 "pcs") 5 3 None)))
       (pretty 1700000000000%Z))
  = [item "milk" 1].
Proof.
  apply (removeItem_after_addItem 1700000000000
           (SmartGroceryApp.mk [item "milk" 1]
              (SmartGroceryApp.NewItem.mk "Eggs" 2 "pcs") 5 3 None)).
  - vm_compute. discriminate.
  - repeat constructor. vm_compute. discriminate.
Defined.

(** ** Names as typed *)

Lemma is_space_lower c : is_space (lower c) = is_space c.
Proof. destruct c as [[] [] [] [] [] [] [] []]; reflexivity. Qed.

Lemma trimStart_lower s : trimStart (toLowerCase s) = toLowerCase (trimStart s).
Proof.
  induction s as [|c s IH]; [reflexivity|].
  simpl. rewrite is_space_lower. destruct (is_space c); [exact IH | reflexivity].
Qed.

Lemma trimEnd_lower s : trimEnd (toLowerCase s) = toLowerCase (trimEnd s).
Proof.
  induction s as [|c s IH]; [reflexivity|].
  simpl. rewrite IH, is_space_lower.
  destruct (trimEnd s); simpl; [destruct (is_space c)|]; reflexivity.
Qed.

Lemma trim_lower s : trim (toLowerCase s) = toLowerCase (trim s).
Proof. unfold trim. rewrite trimStart_lower, trimEnd_lower. reflexivity. Qed.

Lemma toLowerCase_length s : String.length (toLowerCase s) = String.length s.
Proof. induction s as [|c s IH]; simpl; [reflexivity|]. rewrite IH. reflexivity. Qed.

Lemma trimStart_length s :
  (String.length (trimStart s) <= String.length s)%nat
  /\ (String.length (trimStart s) = String.length s -> trimStart s = s).
Proof.
  induction s as [|c s [IH1 IH2]]; simpl; [split; [lia | reflexivity]|].
  destruct (is_space c); simpl; split; try lia; try reflexivity.
Qed.

Lemma trimEnd_length s :
  (String.length (trimEnd s) <= String.length s)%nat
  /\ (String.length (trimEnd s) = String.length s -> trimEnd s = s).
Proof.
  induction s as [|c s [IH1 IH2]]; simpl; [split; [lia | reflexivity]|].
  destruct (trimEnd s) as [|d t] eqn:E.
  - destruct (is_space c); simpl in *; split; try lia.
    intros H. destruct s; [reflexivity | simpl in H; lia].
  - simpl in *. split; [lia|]. intros H. rewrite IH2 by lia. reflexivity.
Qed.

Lemma trim_same_length s : String.length (trim s) = String.length s -> trim s = s.
Proof.
  unfold trim. intros H.
  pose proof (trimStart_length s) as [S1 S2].
  pose proof (trimEnd_length (trimStart s)) as [E1 E2].
  rewrite E2 by lia. apply S2. lia.
Qed.

Lemma trimmed_of_lower s : trim (toLowerCase s) = toLowerCase s -> trim s = s.
Proof.
  intros H. apply trim_same_length.
  rewrite <- (toLowerCase_length (trim s)), <- trim_lower, H.
  apply toLowerCase_length.
Qed.

(** X17: [addItem] checks the trimmed name for blankness but stores the name
    as typed, lower-cased: a name with white space at either end is accepted,
    and no store of [sampleStores] stocks the entry, whatever the radius. *)
Theorem padded_name_is_never_stocked now (st : SmartGroceryApp.State) :
  let name := SmartGroceryApp.NewItem.name (SmartGroceryApp.newItem st) in
  trim name <> EmptyString -> trim name <> name ->
  exists x,
    SmartGroceryApp.groceryList (fst (SmartGroceryApp.addItem now st))
    = SmartGroceryApp.groceryList st ++ [x]
    /\ GroceryItem.name x = toLowerCase name
    /\ forall radius, fulfillable (availableStores sampleStores radius) x = false.
Proof.
  cbv zeta. intros Hblank Hpad. unfold SmartGroceryApp.addItem.
  destruct (String.eqb_spec
              (trim (SmartGroceryApp.NewItem.name (SmartGroceryApp.newItem st)))
              EmptyString) as [E|_]; [contradiction|].
  eexists. split; [reflexivity|]. split; [reflexivity|].
  intros radius. unfold fulfillable.
  destruct (existsb _ _) eqn:Ex; [|reflexivity].
  apply existsb_exists in Ex as (s & Hs & Hst). simpl in Hst.
  apply availableStores_In in Hs as [Hs _].
  apply (sampleStores_stock s _ Hs) in Hst.
  exfalso. apply Hpad. apply trimmed_of_lower.
  destruct Hst as [<-|[<-|[<-|[<-|[]]]]]; reflexivity.
Qed.

Lemma padded_name_is_never_stocked_witness :
  exists x,
    SmartGroceryApp.groceryList
      (fst (SmartGroceryApp.addItem 1700000000000
              (SmartGroceryApp.mk []
                 (SmartGroceryApp.NewItem.mk " Milk" 1 "pcs") 5 3 None)))
    = [x]
    /\ GroceryItem.name x = " milk"
    /\ fulfillable (availableStores sampleStores 5) x = false.
Proof.
  destruct (padded_name_is_never_stocked 1700000000000
              (SmartGroceryApp.mk []
                 (SmartGroceryApp.NewItem.mk " Milk" 1 "pcs") 5 3 None)
              ltac:(vm_compute; discriminate) ltac:(vm_compute; discriminate))
    as (x & H1 & H2 & H3).
  exists x. split; [exact H1|]. split; [exact H2 | apply H3].
Defined.

Lemma optimize_Rejected stores groceryList radius maxStores t :
  optimize stores groceryList radius maxStores = Rejected t ->
  (groceryList = [] /\ t = toast_empty_list)
  \/ (groceryList <> [] /\ availableStores stores radius = []
      /\ t = toast_no_stores).
Proof.
  unfold optimize, optimizeRouteWith.
  destruct groceryList as [|x gl]; [intros [= <-]; left; auto|].
  destruct (availableStores stores radius) as [|s av].
  - intros [= <-]. right. split; [discriminate|]. split; reflexivity.
  - destruct (greedy _ _ _). discriminate.
Qed.

Lemma sampleStores_in_range radius :
  availableStores sampleStores radius <> [] <-> 2.1 <= radius.
Proof.
  split.
  - intros H. destruct (availableStores sampleStores radius) as [|s av] eqn:E;
      [congruence|].
    assert (In s (availableStores sampleStores radius)) as Hin
      by (rewrite E; left; reflexivity).
    apply availableStores_In in Hin as [Hs Hd].
    destruct Hs as [<-|[<-|[<-|[]]]]; simpl in Hd; lra.
  - intros Hr Hnil.
    assert (In (Store.mk "1" "SuperMart" "123 Main St" 2.1
                  (list_to_map
                     [ ("milk", StoreItem.mk 3.99 true);
                       ("bread", StoreItem.mk 2.49 true);
                       ("eggs", StoreItem.mk 4.29 true);
                       ("apples", StoreItem.mk 1.99 true) ]))
              (availableStores sampleStores radius)) as Hin
      by (apply availableStores_In; split; [left; reflexivity | exact Hr]).
    rewrite Hnil in Hin. destruct Hin.
Qed.

(** X18: on its [sampleStores] the component sets a route exactly when the
    list is not empty and the radius is at least 2.1; otherwise it shows one
    error toast and leaves the state, an earlier route included, as it was.
    Only the [route] field ever changes. *)
Theorem handler_sets_route_iff (st : SmartGroceryApp.State) :
  let '(st', toasts) := SmartGroceryApp.optimizeRouteHandler st in
  SmartGroceryApp.groceryList st' = SmartGroceryApp.groceryList st
  /\ SmartGroceryApp.newItem st' = SmartGroceryApp.newItem st
  /\ SmartGroceryApp.radius st' = SmartGroceryApp.radius st
  /\ SmartGroceryApp.maxStores st' = SmartGroceryApp.maxStores st
  /\ length toasts = 1%nat
  /\ ((SmartGroceryApp.groceryList st <> [] /\ 2.1 <= SmartGroceryApp.radius st)
      -> exists r, SmartGroceryApp.route st' = Some r
                   /\ toasts = [toast_optimized (length (ShoppingRoute.stores r))])
  /\ (~ (SmartGroceryApp.groceryList st <> [] /\ 2.1 <= SmartGroceryApp.radius st)
      -> st' = st
         /\ (toasts = [toast_empty_list] \/ toasts = [toast_no_stores])).
Proof.
  unfold SmartGroceryApp.optimizeRouteHandler, optimizeRoute.
  destruct (optimize sampleStores (SmartGroceryApp.groceryList st)
              (SmartGroceryApp.radius st) (SmartGroceryApp.maxStores st))
    as [t|r t] eqn:E.
  - repeat (split; [reflexivity|]).
    apply optimize_Rejected in E. split.
    + intros [Hgl Hr]. apply sampleStores_in_range in Hr.
      destruct E as [[E _]|(_ & E & _)]; contradiction.
    + intros _. split; [reflexivity|].
      destruct E as [[_ ->]|(_ & _ & ->)]; auto.
  - repeat (split; [reflexivity|]).
    apply optimize_Routed in E as (Hgl & Hav & Hs & _ & _ & _ & Ht).
    split.
    + intros _. exists r. split; [reflexivity|].
      rewrite Ht, Hs, length_map. reflexivity.
    + intros H. exfalso. apply H. split; [exact Hgl|].
      apply sampleStores_in_range, Hav.
Qed.

(** * The component with geolocation *)

(** X19: a latitude or longitude of exactly 0 counts as no location: with a
    list that is not empty, the click only shows "Location Required" and
    changes nothing, whether or not the service would have answered. *)
Theorem zero_coordinate_is_no_location api (st : GeoApp.State) q :
  GeoApp.groceryList st <> [] ->
  GeoApp.latitude st = Some q \/ GeoApp.longitude st = Some q ->
  q == 0 ->
  GeoApp.optimizeRoute api st = (st, [GeoApp.toast_location_required]).
Proof.
  intros Hgl Hq H0. unfold GeoApp.optimizeRoute.
  destruct (GeoApp.groceryList st); [congruence|].
  apply Qeq_bool_iff in H0.
  destruct Hq as [->| ->]; simpl; rewrite H0; [reflexivity|].
  rewrite orb_true_r. reflexivity.
Qed.

Lemma zero_coordinate_is_no_location_witness :
  GeoApp.optimizeRoute None
    (GeoApp.mk [item "milk" 1] 5 3 None false [] (Some 0) (Some (-78.5)))
  = (GeoApp.mk [item "milk" 1] 5 3 None false [] (Some 0) (Some (-78.5)),
     [GeoApp.toast_location_required]).
Proof.
  apply (zero_coordinate_is_no_location None
           (GeoApp.mk [item "milk" 1] 5 3 None false [] (Some 0) (Some (-78.5))) 0).
  - discriminate.
  - left. reflexivity.
  - reflexivity.
Defined.

(** X20: when the service fails, a location is known and some store lies
    within the radius, the fallback keeps the first [maxStores] stores
    within the radius, in the order of the store list, and reports a cost of
    15 and savings of 5 per entry of the list, whatever the stores charge:
    with a positive [maxStores] at most [maxStores] stores are kept, all
    within the radius, and the cost is three times the savings. *)
Theorem local_fallback_route (st : GeoApp.State) :
  let available :=
    List.filter (fun s => Qle_bool (GeoStore.distance s) (GeoApp.radius st))
      (GeoApp.stores st) in
  GeoApp.groceryList st <> [] ->
  GeoApp.falsy (GeoApp.latitude st) = false ->
  GeoApp.falsy (GeoApp.longitude st) = false ->
  available <> [] ->
  exists st' r,
    GeoApp.optimizeRoute None st = (st', [GeoApp.toast_api_error])
    /\ GeoApp.route st' = Some r
    /\ GeoApp.isOptimizing st' = false
    /\ OptimizeRouteResponse.stores r = slice0 available (GeoApp.maxStores st)
    /\ Forall (fun s => In s (GeoApp.stores st)
                        /\ GeoStore.distance s <= GeoApp.radius st)
         (OptimizeRouteResponse.stores r)
    /\ ((0 < GeoApp.maxStores st)%Z ->
        (Z.of_nat (length (OptimizeRouteResponse.stores r)) <= GeoApp.maxStores st)%Z
        /\ OptimizeRouteResponse.stores r
           = take (Z.to_nat (GeoApp.maxStores st)) available)
    /\ OptimizeRouteResponse.totalCost r == 3 * OptimizeRouteResponse.savings r
    /\ OptimizeRouteResponse.savings r
       == 5 * inject_Z (Z.of_nat (length (GeoApp.groceryList st))).
Proof.
  cbv zeta. intros Hgl Hlat Hlon Hav. unfold GeoApp.optimizeRoute.
  destruct (GeoApp.groceryList st) as [|x gl] eqn:E; [congruence|].
  rewrite Hlat, Hlon. simpl orb. cbv iota.
  destruct (List.filter _ (GeoApp.stores st)) as [|s av] eqn:F; [congruence|].
  eexists _, _. split; [reflexivity|]. split; [reflexivity|].
  split; [reflexivity|]. split; [reflexivity|].
  cbn [OptimizeRouteResponse.stores OptimizeRouteResponse.totalCost
       OptimizeRouteResponse.savings GeoApp.localFallback].
  split; [|split; [|split; lra]].
  - apply List.Forall_forall. intros y Hy. apply slice0_In in Hy.
    rewrite <- F in Hy. apply filter_In in Hy as [Hin Hd].
    apply Qle_bool_iff in Hd. auto.
  - intros Hmax. split; [apply slice0_length_positive, Hmax|].
    unfold slice0. destruct (Z.ltb_spec (GeoApp.maxStores st) 0); [lia|].
    destruct (Z.min_spec (GeoApp.maxStores st) (Z.of_nat (length (s :: av))))
      as [[_ ->]|[Hle ->]]; [reflexivity|].
    rewrite Nat2Z.id, firstn_all. symmetry. apply take_ge. lia.
Qed.

Lemma local_fallback_route_witness :
  exists st' r,
    GeoApp.optimizeRoute None
      (GeoApp.mk [item "milk" 1; item "eggs" 2] 3 1 None true
         [ GeoStore.mk "1" "SuperMart" "123 Main St" 2.1 40.01 (-78.49) ∅;
           GeoStore.mk "2" "Fresh Foods" "456 Oak Ave" 3.2 39.99 (-78.51) ∅ ]
         (Some 40) (Some (-78.5)))
    = (st', [GeoApp.toast_api_error])
    /\ GeoApp.route st' = Some r
    /\ map GeoStore.id (OptimizeRouteResponse.stores r) = ["1"]
    /\ OptimizeRouteResponse.totalCost r == 30.
Proof.
  destruct (local_fallback_route
              (GeoApp.mk [item "milk" 1; item "eggs" 2] 3 1 None true
                 [ GeoStore.mk "1" "SuperMart" "123 Main St" 2.1 40.01 (-78.49) ∅;
                   GeoStore.mk "2" "Fresh Foods" "456 Oak Ave" 3.2 39.99 (-78.51) ∅ ]
                 (Some 40) (Some (-78.5)))
              ltac:(discriminate) ltac:(reflexivity) ltac:(reflexivity)
              ltac:(vm_compute; discriminate))
    as (st' & r & H1 & H2 & _ & H3 & _ & _ & H4 & H5).
  exists st', r. split; [exact H1|]. split; [exact H2|].
  split; [rewrite H3; reflexivity|].
  rewrite H4, H5. reflexivity.
Defined.

(** * The comma-separated item box *)

Lemma split_comma_free f : comma_free f = true -> split_comma f = [f].
Proof.
  induction f as [|c f IH]; [reflexivity|].
  simpl. destruct (Ascii.eqb c ","); [discriminate|]. simpl. intros H.
  rewrite IH by exact H. reflexivity.
Qed.

Lemma split_comma_field f rest :
  comma_free f = true ->
  split_comma (f ++ String "," rest) = f :: split_comma rest.
Proof.
  induction f as [|c f IH]; [reflexivity|].
  simpl. destruct (Ascii.eqb c ","); [discriminate|]. simpl. intros H.
  rewrite IH by exact H. reflexivity.
Qed.

Lemma split_comma_concat fields :
  fields <> [] -> Forall (fun f => comma_free f = true) fields ->
  split_comma (String.concat "," fields) = fields.
Proof.
  intros Hne H. induction H as [|f fields Hf Hfs IH]; [congruence|].
  destruct fields as [|g fields].
  - simpl. apply split_comma_free, Hf.
  - change (String.concat "," (f :: g :: fields))
      with (f ++ String "," (String.concat "," (g :: fields)))%string.
    rewrite split_comma_field by exact Hf. rewrite IH by discriminate.
    reflexivity.
Qed.

(** X21: the items read from the box are never empty and carry no white
    space at either end, whatever was typed; a blank box gives no items. *)
Theorem parseItems_clean itemsInput :
  Forall (fun s => s <> EmptyString /\ trim s = s) (parseItems itemsInput)
  /\ (trim itemsInput = EmptyString -> comma_free itemsInput = true ->
      parseItems itemsInput = []).
Proof.
  unfold parseItems. split.
  - apply List.Forall_forall. intros s Hs. apply filter_In in Hs as [Hin Hne].
    apply negb_true_iff, String.eqb_neq in Hne. split; [exact Hne|].
    apply in_map_iff in Hin as (f & <- & _). apply trim_idempotent.
  - intros Hblank Hfree. rewrite split_comma_free by exact Hfree.
    simpl. rewrite Hblank. reflexivity.
Qed.

(** X22: typing names separated by commas, each with any white space around
    it, is read back as exactly these names, in order, provided a name is not
    empty and holds no comma. *)
Theorem parseItems_round_trip fields names :
  Forall2 (fun f n => comma_free f = true /\ trim f = n /\ n <> EmptyString)
    fields names ->
  parseItems (String.concat "," fields) = names.
Proof.
  intros H. unfold parseItems.
  destruct fields as [|f fields].
  - inversion H; subst. reflexivity.
  - rewrite split_comma_concat.
    + induction H as [|g n gs ns (Hfree & Htrim & Hne) _ IH]; [reflexivity|].
      simpl. rewrite Htrim. apply String.eqb_neq in Hne. rewrite Hne. simpl.
      rewrite IH. reflexivity.
    + discriminate.
    + apply Forall2_Forall_l with (Q := fun f => comma_free f = true) in H;
        [exact H|].
      apply List.Forall_forall. intros n _ g Hg. tauto.
Qed.

Lemma parseItems_round_trip_witness :
  parseItems "milk, eggs ,  whole wheat bread" = ["milk"; "eggs"; "whole wheat bread"].
Proof.
  apply (parseItems_round_trip ["milk"; " eggs "; "  whole wheat bread"]
           ["milk"; "eggs"; "whole wheat bread"]).
  repeat constructor; discriminate.
Defined.
